(** * The tslab executor ([src/src/executor.ts]) as a shallow embedding

    [createExecutor] closes over a handful of mutable variables
    ([sideOutputs], [sideModules], [exports], [prevDecl], the interrupt
    promise) and hands out [execute], [reset] and [interrupt].  The closure
    becomes the record [State]; the functions become computations in a small
    state-and-exception monad [M].

    Code that the executor merely hosts (the compiled snippet, the generated
    side modules) is represented by the interaction it can have with the
    executor: it reads and writes [exports] through the proxy, calls the
    wrapped [require], returns or throws.  The collaborators that are
    imported from other files ([./converter], [./metadata], [./tspath]),
    Node's [path], [vm] and [module], the JavaScript engine itself and the
    console given to [createExecutor] are the fields of the classes
    [Converter] and [Host].  A call of a collaborator returns or throws.

    The target of the [exports] proxy is an ordinary object: it has
    properties of its own and a prototype, [Object.prototype] at first.
    What a lookup finds in the chain of prototypes is left to the [Host].

    Left out: hosted code that does not terminate; what hosted code writes
    to a console of its own; getters of a property descriptor that use
    [exports] or [require] themselves; prototypes of [exports] with
    accessors other than [__proto__] of [Object.prototype], with proxies
    or with [exports] itself in their chain; hosted code that seals
    [exports] or prevents its extension.

    [inspect] and [complete] come after the executor proper, and after them
    the file watcher of [src/src/testutil.ts]. *)

From Stdlib Require Import ZArith Ascii String List Bool Lia.
From stdpp Require Import gmap strings list fin_maps.

Open Scope string_scope.
Open Scope list_scope.

(** ** JavaScript values *)

Inductive Value : Type :=
| VUndefined
| VNull
| VBool (b : bool)
| VNum (n : Z)
| VStr (s : string)
| VError (message : string)   (* new Error(message) *)
| VObject (ref : nat).        (* any other object or function, by identity *)

(** [if (v)] *)
Definition truthy (v : Value) : bool :=
  match v with
  | VUndefined | VNull => false
  | VBool b => b
  | VNum n => negb (n =? 0)%Z
  | VStr s => negb (s =? "")
  | VError _ | VObject _ => true
  end.

(** [v != null] *)
Definition not_nullish (v : Value) : bool :=
  match v with
  | VUndefined | VNull => false
  | _ => true
  end.

(** [Type(v)] is Object *)
Definition is_object (v : Value) : bool :=
  match v with
  | VError _ | VObject _ => true
  | _ => false
  end.

(** [if (s)] for an optional string property *)
Definition truthy_str (s : option string) : bool :=
  match s with
  | Some s => negb (s =? "")
  | None => false
  end.

(** How a call ends: it returns or it throws.  The same type is the state of
    a settled promise (fulfilled or rejected). *)
Inductive Result (A : Type) : Type :=
| Ok (a : A)
| Thrown (e : Value).
Arguments Ok {A} a.
Arguments Thrown {A} e.

(** ** Records exchanged with the collaborators *)

(** [SideOutput] of [./converter] *)
Record SideOutput := mkSideOutput { path : string; data : string }.

(** [Diagnostic] of [./converter]; only the fields [printDiagnostics] reads *)
Record Diagnostic := mkDiagnostic {
  fileName : option string;
  start_line : Z;
  start_character : Z;
  messageText : string
}.

(** [ConvertResult] of [./converter] *)
Record ConvertResult := mkConvertResult {
  output : option string;
  declOutput : option string;
  diagnostics : list Diagnostic;
  hasToplevelAwait : bool;
  cr_sideOutputs : option (list SideOutput);
  lastExpressionVar : option string
}.

Inductive Mode := ModeNode | ModeBrowser.

(** [CodeMetadata] of [./metadata] *)
Record CodeMetadata := mkCodeMetadata {
  mode : Mode;
  module : option string
}.

(** The descriptor handed to [Object.defineProperty].  A getter is kept as
    what calling it yields.  [d_configurable] is the field [configurable],
    when the descriptor has one; the fields [writable], [enumerable] and
    [set] change nothing in what follows. *)
Record PropertyDescriptor := mkDescriptor {
  d_get : option (Result Value);
  d_value : Value;
  d_configurable : option bool
}.

(** What the lookup of a name finds in a chain of prototypes: nothing, a
    data property, or the accessor [__proto__] of [Object.prototype] *)
Inductive Inherited :=
| NoProperty
| DataProperty (v : Value) (writable : bool)
| ProtoAccessor.

(** The [NodeModule] built by [requireFromSideOutputs].  [mod_source] is not a
    field of Node's [Module]: it remembers the text given to [_compile], so
    that the cache invariant can be stated. *)
Record NodeModule := mkNodeModule {
  mod_filename : string;
  mod_paths : list string;
  mod_exports : Value;
  mod_source : string
}.

(** The interrupt promise: settled or not, and whether a handler is attached
    (a rejected promise without one is an unhandled rejection). *)
Record PromiseCell := mkPromiseCell {
  settled : option (Result Value);
  handled : bool
}.

(** Calls received by the [ConsoleInterface] *)
Inductive ConsoleCall :=
| CLog (args : list Value)
| CError (args : list Value).

(** The underlying [require] that a wrapped one falls back to *)
Inductive HostRequire :=
| CreatedRequire (filename : string)   (* Module.createRequire(filename) *)
| ModuleRequire (filename : string).   (* mod.require of new Module(filename) *)

(** What [vm.runInThisContext(wrapped)] evaluates to: the plain return value
    of a function, or the promise of an async function, already settled or
    still pending. *)
Inductive RetVal :=
| Plain (v : Value)
| PromiseOf (s : option (Result Value)).

Definition truthy_ret (r : RetVal) : bool :=
  match r with
  | Plain v => truthy v
  | PromiseOf _ => true
  end.

(** ** Hosted code

    A piece of JavaScript run by the executor, as the sequence of its
    interactions with the executor.  [R] is what it finally yields.  An
    assignment tells the code whether it was carried out ([false]: it was
    refused, which is a [TypeError] in strict code and nothing in sloppy
    code). *)
Inductive Prog (R : Type) : Type :=
| Ret (r : R)
| GetExport (name : string) (k : Value -> Prog R)            (* exports[name] *)
| SetExport (name : string) (v : Value)
    (k : Result bool -> Prog R)                              (* exports[name] = v *)
| DeleteExport (name : string) (k : Prog R)                  (* delete exports[name] *)
| DefineExport (name : string) (attrs : PropertyDescriptor)
    (k : Result unit -> Prog R)                 (* Object.defineProperty(exports, name, attrs) *)
| CallRequire (args : list string) (k : Result Value -> Prog R).  (* require(...args) *)
Arguments Ret {R} r.
Arguments GetExport {R} name k.
Arguments SetExport {R} name v k.
Arguments DeleteExport {R} name k.
Arguments DefineExport {R} name attrs k.
Arguments CallRequire {R} args k.

(** ** Collaborators *)

(** [Converter] of [./converter], with its internal state explicit.  Both
    methods are ordinary calls: they return or they throw. *)
Class Converter (Conv : Type) := {
  convert : Conv -> string -> string -> Result ConvertResult * Conv;
  addModule : Conv -> string -> string -> CodeMetadata -> Result (list Diagnostic) * Conv
}.

Class Host := {
  getCodeMetadata : string -> Result CodeMetadata;       (* ./metadata *)
  normalizeJoin : string -> string -> string;            (* ./tspath *)
  path_extname : string -> string;                       (* path.extname *)
  path_dirname : string -> string;                       (* path.dirname *)
  nodeModulePaths : string -> list string;               (* Module._nodeModulePaths *)
  runInThisContext : string -> Prog (Result RetVal);     (* vm.runInThisContext *)
  module_compile : string -> string -> Prog (Result Value);
    (* mod._compile(content, filename): the final mod.exports, or the throw *)
  host_apply : HostRequire -> list string -> Result Value;  (* req.apply(thisArg, argArray) *)
  tslab : Value;                                         (* require('..') *)
  stackDepth : nat;                                      (* nested calls the stack can hold *)
  rangeError : Value;                                    (* thrown when the call stack is exhausted *)
  objectPrototype : Value;                               (* Object.prototype *)
  inherited : Value -> string -> Inherited;
    (* what the lookup of a name finds in the chain that starts at an object *)
  readOnlyError : string -> Value;
    (* the TypeError of an assignment that strict code is refused *)
  invariantError : string -> Value;
    (* the TypeError of a proxy whose trap reports what the target does not show *)
  console_reply : list ConsoleCall -> ConsoleCall -> Result unit
    (* the console given to createExecutor: how a call of log or error ends,
       after the calls that the console has received so far *)
}.

Section Executor.

Context {Conv : Type} `{!Converter Conv} `{!Host}.

(** ** The closure of [createExecutor]

    [exports] holds the own properties of the target of the proxy; all of
    them are created by a plain assignment, so that they are writable,
    enumerable and configurable data properties.  [exports_proto] is the
    prototype of the target. *)

Record State := mkState {
  sideOutputs : gmap string string;
  sideModules : gmap string NodeModule;
  exports : gmap string Value;
  exports_proto : Value;
  prevDecl : string;
  promises : list PromiseCell;
  interruptPromise : nat;
  rejectInterruptPromise : nat;
  console : list ConsoleCall;
  node : Conv;
  browser : Conv
}.

Definition set_sideOutputs (f : gmap string string -> gmap string string) (st : State) : State :=
  mkState (f (sideOutputs st)) (sideModules st) (exports st) (exports_proto st) (prevDecl st)
    (promises st) (interruptPromise st) (rejectInterruptPromise st) (console st) (node st)
    (browser st).

Definition set_sideModules (f : gmap string NodeModule -> gmap string NodeModule) (st : State) : State :=
  mkState (sideOutputs st) (f (sideModules st)) (exports st) (exports_proto st) (prevDecl st)
    (promises st) (interruptPromise st) (rejectInterruptPromise st) (console st) (node st)
    (browser st).

Definition set_exports (f : gmap string Value -> gmap string Value) (st : State) : State :=
  mkState (sideOutputs st) (sideModules st) (f (exports st)) (exports_proto st) (prevDecl st)
    (promises st) (interruptPromise st) (rejectInterruptPromise st) (console st) (node st)
    (browser st).

Definition set_exports_proto (p : Value) (st : State) : State :=
  mkState (sideOutputs st) (sideModules st) (exports st) p (prevDecl st)
    (promises st) (interruptPromise st) (rejectInterruptPromise st) (console st) (node st)
    (browser st).

Definition set_prevDecl (d : string) (st : State) : State :=
  mkState (sideOutputs st) (sideModules st) (exports st) (exports_proto st) d
    (promises st) (interruptPromise st) (rejectInterruptPromise st) (console st) (node st)
    (browser st).

Definition set_console (f : list ConsoleCall -> list ConsoleCall) (st : State) : State :=
  mkState (sideOutputs st) (sideModules st) (exports st) (exports_proto st) (prevDecl st)
    (promises st) (interruptPromise st) (rejectInterruptPromise st) (f (console st)) (node st)
    (browser st).

Definition set_promises (f : list PromiseCell -> list PromiseCell) (st : State) : State :=
  mkState (sideOutputs st) (sideModules st) (exports st) (exports_proto st) (prevDecl st)
    (f (promises st)) (interruptPromise st) (rejectInterruptPromise st) (console st) (node st)
    (browser st).

Definition set_interruptPromise (p : nat) (st : State) : State :=
  mkState (sideOutputs st) (sideModules st) (exports st) (exports_proto st) (prevDecl st)
    (promises st) p (rejectInterruptPromise st) (console st) (node st) (browser st).

Definition set_rejectInterruptPromise (p : nat) (st : State) : State :=
  mkState (sideOutputs st) (sideModules st) (exports st) (exports_proto st) (prevDecl st)
    (promises st) (interruptPromise st) p (console st) (node st) (browser st).

Definition set_node (c : Conv) (st : State) : State :=
  mkState (sideOutputs st) (sideModules st) (exports st) (exports_proto st) (prevDecl st)
    (promises st) (interruptPromise st) (rejectInterruptPromise st) (console st) c (browser st).

Definition set_browser (c : Conv) (st : State) : State :=
  mkState (sideOutputs st) (sideModules st) (exports st) (exports_proto st) (prevDecl st)
    (promises st) (interruptPromise st) (rejectInterruptPromise st) (console st) (node st) c.

(** ** The monad: state that survives a throw *)

Definition M (A : Type) : Type := State -> Result A * State.

Definition ret {A} (a : A) : M A := fun st => (Ok a, st).

Definition throw {A} (e : Value) : M A := fun st => (Thrown e, st).

Definition bind {A B} (m : M A) (k : A -> M B) : M B :=
  fun st =>
    match m st with
    | (Ok a, st') => k a st'
    | (Thrown e, st') => (Thrown e, st')
    end.

(** [try { m } catch (e) { h e }] *)
Definition try_catch {A} (m : M A) (h : Value -> M A) : M A :=
  fun st =>
    match m st with
    | (Ok a, st') => (Ok a, st')
    | (Thrown e, st') => h e st'
    end.

Definition gets {A} (f : State -> A) : M A := fun st => (Ok (f st), st).

Definition modify (f : State -> State) : M unit := fun st => (Ok tt, f st).

Definition lift {A} (r : Result A) : M A := fun st => (r, st).

Notation "'do' x <- m ; k" := (bind m (fun x => k))
  (at level 10, x name, m at level 100, k at level 200).
Notation "m ;; k" := (bind m (fun _ => k))
  (at level 100, k at level 200, right associativity).

(** ** The console

    The console receives the call, and the call returns or throws. *)

Definition console_call (call : ConsoleCall) : M unit :=
  fun st => (console_reply (console st) call, set_console (fun c => c ++ [call]) st).

Definition console_log (args : list Value) : M unit := console_call (CLog args).

Definition console_error (args : list Value) : M unit := console_call (CError args).

(** ** [createExports]

    The target [{}] of the proxy: no property of its own, and
    [Object.prototype] as its prototype. *)

Definition createExports : gmap string Value * Value := (∅, objectPrototype).

(** The lookup of [name] in the chain that starts at the prototype [p] *)
Definition lookup_chain (p : Value) (name : string) : Inherited :=
  if p is VNull then NoProperty else inherited p name.

(** The setter of [__proto__]: the prototype is replaced by an object or by
    [null], and anything else is ignored. *)
Definition set_proto (v : Value) : M unit :=
  if is_object v || (if v is VNull then true else false)
  then modify (set_exports_proto v)
  else ret tt.

(** [exports[prop] = v] inside the trap, where [exports] is the target and
    the code is strict.  A property of the target itself is overwritten;
    otherwise the chain of prototypes decides: a read-only property refuses
    the assignment, the setter of [__proto__] takes it, and in every other
    case the target gets a property of its own. *)
Definition target_assign (prop : string) (v : Value) : M unit :=
  do own <- gets (fun st => exports st !! prop);
  if own is Some _ then modify (set_exports (insert prop v))
  else
    do p <- gets exports_proto;
    match lookup_chain p prop with
    | NoProperty | DataProperty _ true => modify (set_exports (insert prop v))
    | DataProperty _ false => throw (readOnlyError prop)
    | ProtoAccessor => set_proto v
    end.

(** The [defineProperty] trap of the proxy *)
Definition defineProperty (prop : string) (attrs : PropertyDescriptor) : M bool :=
  if prop =? "__esModule" then ret true
  else
    match d_get attrs with
    | Some getter =>
        do v <- lift getter;
        target_assign prop v;;
        ret true
    | None =>
        target_assign prop (d_value attrs);;
        ret true
    end.

(** [Object.defineProperty(exports, prop, attrs)] on the proxy: the trap
    runs, and then the proxy checks what the trap reported against the
    target.  The properties of the target are configurable, and a property
    that is missing is not even that: a descriptor with
    [configurable: false] is a [TypeError], after the trap has done its
    work. *)
Definition exports_define (prop : string) (attrs : PropertyDescriptor) : M unit :=
  do ok <- defineProperty prop attrs;
  if negb ok then throw (invariantError prop)
  else if d_configurable attrs is Some false then throw (invariantError prop)
  else ret tt.

(** The other operations on the proxy have no trap of their own and go to
    the target, with the proxy as the receiver. *)

(** [exports[name]]: the property of the target, or what the chain of
    prototypes has; the getter of [__proto__] yields the prototype. *)
Definition exports_read (name : string) (st : State) : Value :=
  match exports st !! name with
  | Some v => v
  | None =>
      match lookup_chain (exports_proto st) name with
      | NoProperty => VUndefined
      | DataProperty v _ => v
      | ProtoAccessor => exports_proto st
      end
  end.

Definition exports_get (name : string) : M Value := gets (exports_read name).

(** [exports[name] = v]: unless the chain of prototypes refuses or takes
    the assignment, the receiver is asked to define the property, which
    reaches the trap with a data descriptor. *)
Definition exports_set (name : string) (v : Value) : M bool :=
  do own <- gets (fun st => exports st !! name);
  do p <- gets exports_proto;
  match own, lookup_chain p name with
  | Some _, _ =>
      exports_define name (mkDescriptor None v None);; ret true
  | None, NoProperty | None, DataProperty _ true =>
      exports_define name (mkDescriptor None v (Some true));; ret true
  | None, DataProperty _ false => ret false
  | None, ProtoAccessor => set_proto v;; ret true
  end.

(** [delete exports[name]] *)
Definition exports_delete (name : string) : M unit :=
  modify (set_exports (delete name)).

(** ** Running hosted code against a given [require] *)

Fixpoint run {R} (require : list string -> M Value) (p : Prog R) (st : State) : R * State :=
  match p with
  | Ret r => (r, st)
  | GetExport name k =>
      run require (k (exports_read name st)) st
  | SetExport name v k =>
      let '(r, st') := exports_set name v st in
      run require (k r) st'
  | DeleteExport name k =>
      run require k (snd (exports_delete name st))
  | DefineExport name attrs k =>
      let '(r, st') := exports_define name attrs st in
      run require (k r) st'
  | CallRequire args k =>
      let '(r, st') := require args st in
      run require (k r) st'
  end.

(** Hosted code that ends by returning or throwing, as a computation *)
Definition run_call {A} (require : list string -> M Value) (p : Prog (Result A)) : M A :=
  fun st => run require p st.

(** ** [wrapRequire] *)

Section WrapRequire.

(** [wrapRequire] one stack frame further down, for the [require] of a module
    that is being compiled *)
Variable wrapRequire_inner : HostRequire -> string -> list string -> M Value.

Definition requireFromSideOutputs (dirname id : string) : M Value :=
  let filename := normalizeJoin dirname id in
  let filename := if path_extname filename =? "" then filename +:+ ".js" else filename in
  do cached <- gets (fun st => sideModules st !! filename);
  match cached with
  | Some cached => ret (mod_exports cached)
  | None =>
      do content <- gets (fun st => sideOutputs st !! filename);
      match content with
      | None => ret VNull
      | Some content =>
          let paths := nodeModulePaths (path_dirname filename) in
          let require := wrapRequire_inner (ModuleRequire filename) (path_dirname filename) in
          do exps <- run_call require (module_compile content filename);
          modify (set_sideModules (insert filename (mkNodeModule filename paths exps content)));;
          ret exps
      end
  end.

Definition wrapRequire_apply (req : HostRequire) (dirname : string) (argArray : list string)
  : M Value :=
  match argArray with
  | [arg] =>
      if arg =? "tslab" then ret tslab
      else
        do mod' <- requireFromSideOutputs dirname arg;
        if truthy mod' then ret mod'
        else lift (host_apply req argArray)
  | _ => lift (host_apply req argArray)
  end.

End WrapRequire.

(** A call of the function returned by [wrapRequire(req, dirname, ...)] with
    [depth] stack frames left.  Every nested module load uses one; with none
    left the call throws, as V8 does. *)
Fixpoint wrapRequire (depth : nat) (req : HostRequire) (dirname : string)
  (argArray : list string) : M Value :=
  match depth with
  | O => throw rangeError
  | S depth' => wrapRequire_apply (wrapRequire depth') req dirname argArray
  end.

(** ** [createExecutor] *)

Variable rootDir : string.

(** [createRequire(rootDir)] *)
Definition createRequire (rootDir : string) : HostRequire :=
  CreatedRequire (normalizeJoin rootDir "src.js").

(** [req], the [require] given to every snippet *)
Definition req : list string -> M Value :=
  wrapRequire stackDepth (createRequire rootDir) rootDir.

Fixpoint updateSideOutputs (outs : list SideOutput) : M unit :=
  match outs with
  | [] => ret tt
  | out :: outs' =>
      do cached <- gets (fun st => sideModules st !! path out);
      (if cached is Some _ then modify (set_sideModules (delete (path out))) else ret tt);;
      modify (set_sideOutputs (insert (path out) (data out)));;
      updateSideOutputs outs'
  end.

(** [new Error('Interrupted asynchronously')] *)
Definition interrupted : Value := VError "Interrupted asynchronously".

(** Calling the [reject] function of promise [p]: nothing happens once the
    promise is settled. *)
Definition reject_promise (p : nat) (reason : Value) (ps : list PromiseCell) : list PromiseCell :=
  match ps !! p with
  | Some cell =>
      if settled cell is None then <[p := mkPromiseCell (Some (Thrown reason)) (handled cell)]> ps
      else ps
  | None => ps
  end.

(** [promise.catch(() => {})] *)
Definition attach_handler (p : nat) (ps : list PromiseCell) : list PromiseCell :=
  match ps !! p with
  | Some cell => <[p := mkPromiseCell (settled cell) true]> ps
  | None => ps
  end.

Definition resetInterruptPromise : M unit :=
  do fresh <- gets (fun st => length (promises st));
  modify (set_promises (fun ps => ps ++ [mkPromiseCell None false]));;
  modify (set_rejectInterruptPromise fresh);;
  modify (set_interruptPromise fresh);;
  do p <- gets interruptPromise;
  modify (set_promises (attach_handler p)).

Definition interrupt : M unit :=
  do p <- gets rejectInterruptPromise;
  modify (set_promises (reject_promise p interrupted));;
  resetInterruptPromise.

(** The state in which [createExecutor] returns: two empty maps, the
    exports, no declaration, and the first interrupt promise *)
Definition createExecutor (convs_node convs_browser : Conv) : State :=
  snd (resetInterruptPromise
         (mkState ∅ ∅ (fst createExports) (snd createExports) "" [] 0 0 []
            convs_node convs_browser)).

Fixpoint printDiagnostics (diags : list Diagnostic) : M unit :=
  match diags with
  | [] => ret tt
  | diag :: diags' =>
      console_error
        [VStr "%s%d:%d - %s";
         VStr (if truthy_str (fileName diag) then default "" (fileName diag) +:+ " " else "");
         VNum (start_line diag + 1);
         VNum (start_character diag + 1);
         VStr (messageText diag)];;
      printDiagnostics diags'
  end.

(** ** [execute]

    [execute] is an async function with one [await].  [execute_begin] is the
    part that runs when [execute] is called, up to the [await] or to an
    earlier [return]; [execute_resume] is the part after the [await], given
    how the awaited [Promise.race] was settled.  A throw of either part
    rejects the promise that [execute] returned. *)

(** An [execute] suspended at its [await] *)
Record InFlight := mkInFlight {
  fl_converted : ConvertResult;
  fl_signal : nat;                        (* the interruptPromise it races against *)
  fl_race : option (Result Value)         (* Promise.race([promise, interruptPromise]) *)
}.

Inductive ExecStatus :=
| Finished (ok : bool)
| Awaiting (fl : InFlight).

(** The state of [Promise.race([promise, interruptPromise])] when it is
    created: the first settled element of the array wins. *)
Definition race (promise : RetVal) (signal : option PromiseCell) : option (Result Value) :=
  match promise with
  | Plain v => Some (Ok v)
  | PromiseOf (Some r) => Some r
  | PromiseOf None => signal ≫= settled
  end.

Definition nl : string := String (Ascii.ascii_of_nat 10) EmptyString.

(** Lines 206 and 207: the compiled snippet inside a function that is called
    with [exports] and [require] *)
Definition wrapped (converted : ConvertResult) : string :=
  let prefix :=
    if hasToplevelAwait converted then "(async function(exports, require) { "
    else "(function(exports, require) { " in
  prefix +:+ default "" (output converted) +:+ nl
    +:+ "})(__tslab__.exports, __tslab__.require)".

(** Lines 226 to 232: the end of a successful run.  The binding of the
    trailing expression is read twice, for the test and for [ret]. *)
Definition execute_finish (converted : ConvertResult) : M bool :=
  modify (set_prevDecl (default "" (declOutput converted)));;
  (if truthy_str (lastExpressionVar converted) then
     let name := default "" (lastExpressionVar converted) in
     do v <- exports_get name;
     if not_nullish v then
       do ret' <- exports_get name;
       exports_delete name;;
       console_log [ret']
     else ret tt
   else ret tt);;
  ret true.

Definition execute_begin (src : string) : M ExecStatus :=
  do meta <- lift (getCodeMetadata src);
  if truthy_str (module meta) then
    let name := default "" (module meta) in
    do diags <-
      (match mode meta with
       | ModeBrowser => fun st =>
           let '(d, c) := addModule (browser st) name src meta in (d, set_browser c st)
       | ModeNode => fun st =>
           let '(d, c) := addModule (node st) name src meta in (d, set_node c st)
       end);
    printDiagnostics diags;;
    ret (Finished true)
  else if mode meta is ModeBrowser then ret (Finished true)
  else
    do converted <-
      (fun st => let '(r, c) := convert (node st) (prevDecl st) src in (r, set_node c st));
    (if cr_sideOutputs converted is Some outs then updateSideOutputs outs else ret tt);;
    if (0 <? length (diagnostics converted))%nat then
      printDiagnostics (diagnostics converted);;
      ret (Finished false)
    else if negb (truthy_str (output converted)) then
      modify (set_prevDecl (default "" (declOutput converted)));;
      ret (Finished true)
    else
      (* the first try block: [inl promise] when it is left normally,
         [inr false] for the [return false] of its catch *)
      do ran <-
        try_catch
          (do ret' <- run_call req (runInThisContext (wrapped converted));
           ret (inl (if hasToplevelAwait converted then Some ret' else None)))
          (fun e => console_error [e];; ret (inr false));
      match ran with
      | inr returned => ret (Finished returned)
      | inl promise =>
          let finish := (do ok <- execute_finish converted; ret (Finished ok)) in
          match promise with
          | Some promise =>
              if truthy_ret promise then
                (* await Promise.race([promise, interruptPromise]) *)
                do signal <- gets interruptPromise;
                do cell <- gets (fun st => promises st !! signal);
                ret (Awaiting (mkInFlight converted signal (race promise cell)))
              else finish
          | None => finish
          end
      end.

(** The [await] has returned or thrown, with what the race was settled
    with. *)
Definition execute_resume (fl : InFlight) (settled_as : Result Value) : M bool :=
  match settled_as with
  | Thrown e => console_error [e];; ret false
  | Ok _ => execute_finish (fl_converted fl)
  end.

(** ** [reset] *)

Definition reset : M unit :=
  modify (set_prevDecl "");;
  do names <- gets (fun st => (map_to_list (exports st)).*1);
  modify (set_exports (fun e => foldl (fun e name => delete name e) e names)).

(** ** The event loop

    What can happen to an executor, one step at a time: the front end calls
    [execute], [interrupt] or [reset]; the body of a suspended snippet runs
    on (and may settle its promise); the continuation of a suspended
    [execute] runs.  A step yields how the promise returned by [execute] is
    settled, when it is.  Callers must not overlap two [execute]; a second
    [Awaiting] replaces the first. *)

Record System := mkSystem {
  engine : State;
  inflight : option InFlight
}.

Inductive Event :=
| EvExecute (src : string)
| EvInterrupt
| EvReset
| EvBody (seg : Prog (option (Result Value)))
| EvResume.

Definition is_pending (p : nat) (ps : list PromiseCell) : bool :=
  match ps !! p with
  | Some cell => if settled cell is None then true else false
  | None => false
  end.

(** The race is settled by the first of its two promises that settles. *)
Definition settle_race (r : Result Value) (fl : InFlight) : InFlight :=
  if fl_race fl is None then mkInFlight (fl_converted fl) (fl_signal fl) (Some r) else fl.

(** The race looks at its interrupt promise in the heap [ps]: when that
    promise is settled, a race that is still pending is settled with it. *)
Definition watch_signal (ps : list PromiseCell) (fl : InFlight) : InFlight :=
  match ps !! fl_signal fl ≫= settled with
  | Some r => settle_race r fl
  | None => fl
  end.

Definition sys_step (ev : Event) (sys : System) : System * option (Result bool) :=
  match ev with
  | EvExecute src =>
      match execute_begin src (engine sys) with
      | (Ok (Finished ok), st) => (mkSystem st (inflight sys), Some (Ok ok))
      | (Ok (Awaiting fl), st) => (mkSystem st (Some fl), None)
      | (Thrown e, st) => (mkSystem st (inflight sys), Some (Thrown e))
      end
  | EvInterrupt =>
      let st := snd (interrupt (engine sys)) in
      (mkSystem st (watch_signal (promises st) <$> inflight sys), None)
  | EvReset => (mkSystem (snd (reset (engine sys))) (inflight sys), None)
  | EvBody seg =>
      let '(r, st) := run req seg (engine sys) in
      (mkSystem st (if r is Some r then settle_race r <$> inflight sys else inflight sys), None)
  | EvResume =>
      match inflight sys with
      | Some fl =>
          match fl_race fl with
          | Some r =>
              let '(res, st) := execute_resume fl r (engine sys) in
              (mkSystem st None, Some res)
          | None => (sys, None)
          end
      | None => (sys, None)
      end
  end.

(** The state after a sequence of events *)
Definition sys_run (evs : list Event) (sys : System) : System :=
  foldl (fun sys ev => fst (sys_step ev sys)) sys evs.

End Executor.

(** * Vocabulary of the properties *)

Section Vocabulary.

Context {Conv : Type} `{!Converter Conv} `{!Host}.

Implicit Types (st : @State Conv) (src name : string).

(** The variables of the closure that hosted code has no way to reach *)
Definition outside_realm st :=
  (sideOutputs st, prevDecl st, promises st, interruptPromise st,
   rejectInterruptPromise st, console st, node st, browser st).

(** All the variables but [exports]: the properties of the target and its
    prototype *)
Definition beyond_exports st :=
  (sideOutputs st, sideModules st, prevDecl st, promises st, interruptPromise st,
   rejectInterruptPromise st, console st, node st, browser st).

(** A property of the executor that does not look at [exports] *)
Definition blind (P : @State Conv -> Prop) : Prop :=
  forall st st', beyond_exports st' = beyond_exports st -> P st -> P st'.

(** A computation that keeps a property of the executor, whether it
    returns or throws *)
Definition maintains {A} (P : @State Conv -> Prop) (m : M A) : Prop :=
  forall st, P st -> P (snd (m st)).

(** The call of [console.error] that [printDiagnostics] makes for one
    diagnostic *)
Definition diagnostic_call (diag : Diagnostic) : ConsoleCall :=
  CError
    [VStr "%s%d:%d - %s";
     VStr (if truthy_str (fileName diag) then default "" (fileName diag) +:+ " " else "");
     VNum (start_line diag + 1);
     VNum (start_character diag + 1);
     VStr (messageText diag)].

(** The console returns from each of the [calls], made one after the other
    to a console that has received the calls [sofar]. *)
Fixpoint console_returns (sofar calls : list ConsoleCall) : Prop :=
  match calls with
  | [] => True
  | call :: calls' =>
      console_reply sofar call = Ok tt /\ console_returns (sofar ++ [call]) calls'
  end.

(** The two maps after [updateSideOutputs]: the source texts ... *)
Definition recorded (outs : list SideOutput) (so : gmap string string) : gmap string string :=
  foldl (fun so out => <[path out := data out]> so) so outs.

(** ... here the compiled instances that are left *)
Definition evicted (outs : list SideOutput) (sm : gmap string NodeModule)
  : gmap string NodeModule :=
  foldl (fun sm out => delete (path out) sm) sm outs.

(** The text that the list [outs] has last for the path [p] *)
Definition last_text (p : string) (outs : list SideOutput) : option string :=
  data <$> last (filter (fun out => path out = p) outs).

(** [src] is not a module and is meant for Node: it is handed to the node
    converter ... *)
Definition for_converter src : Prop :=
  exists meta,
    getCodeMetadata src = Ok meta /\
    truthy_str (module meta) = false /\
    mode meta = ModeNode.

(** ... which returns [converted] *)
Definition converts src st (converted : ConvertResult) : Prop :=
  for_converter src /\
  fst (convert (node st) (prevDecl st) src) = Ok converted.

(** The executor in which the body is about to run *)
Definition after_convert (converted : ConvertResult) src st : State :=
  let outs := default [] (cr_sideOutputs converted) in
  mkState (recorded outs (sideOutputs st)) (evicted outs (sideModules st))
    (exports st) (exports_proto st) (prevDecl st) (promises st) (interruptPromise st)
    (rejectInterruptPromise st) (console st)
    (snd (convert (node st) (prevDecl st) src)) (browser st).

(** The converter reports no diagnostic and returns a body *)
Definition runs_body src st (converted : ConvertResult) : Prop :=
  converts src st converted /\
  diagnostics converted = [] /\
  truthy_str (output converted) = true.


(** The interrupt promise is as [resetInterruptPromise] leaves it: both
    variables of the closure designate it, it is the one pending promise, and
    no promise lacks a handler. *)
Definition signal_armed st : Prop :=
  rejectInterruptPromise st = interruptPromise st /\
  (forall p, is_pending p (promises st) = true <-> p = interruptPromise st) /\
  (forall p cell, promises st !! p = Some cell -> handled cell = true).

(** The variables that make up the interrupt promise *)
Definition signals st :=
  (promises st, interruptPromise st, rejectInterruptPromise st).


(** Events that write nothing to the console and leave the declarations *)
Definition quiet (ev : Event) : Prop :=
  match ev with
  | EvBody _ | EvInterrupt => True
  | _ => False
  end.

(** The suspended [execute] is the same one, and a settled race stays as it
    was settled. *)
Definition race_kept (fl fl' : InFlight) : Prop :=
  fl_converted fl' = fl_converted fl /\
  fl_signal fl' = fl_signal fl /\
  forall r, fl_race fl = Some r -> fl_race fl' = Some r.

(** What [execute] does with the binding [name] of the trailing expression,
    between the executor [st2] in which the run succeeded and the executor
    [st'] in which [execute] returns *)
Definition displayed name (st2 st' : @State Conv) : Prop :=
  let v := exports_read name st2 in
  (not_nullish v = true ->
   exports st' = delete name (exports st2) /\
   console st' = console st2 ++ [CLog [v]]) /\
  (not_nullish v = false ->
   exports st' = exports st2 /\
   console st' = console st2).

(** The calls of the console at the end of a successful run that leaves the
    executor [st]: the value of the trailing expression, if the snippet has
    one and it is neither [null] nor [undefined] *)
Definition trailing (converted : ConvertResult) st : list ConsoleCall :=
  if truthy_str (lastExpressionVar converted) then
    let v := exports_read (default "" (lastExpressionVar converted)) st in
    if not_nullish v then [CLog [v]] else []
  else [].

(** The executor in which a successful run ends, when the body leaves it
    the executor [st] *)
Definition after_finish (converted : ConvertResult) st : State :=
  let st1 := set_prevDecl (default "" (declOutput converted)) st in
  if truthy_str (lastExpressionVar converted) then
    let name := default "" (lastExpressionVar converted) in
    let v := exports_read name st in
    if not_nullish v then
      set_console (fun c => c ++ [CLog [v]]) (set_exports (delete name) st1)
    else st1
  else st1.

(** The variables behind the module cache and the interrupt promise *)
Definition core st :=
  (sideOutputs st, sideModules st, promises st, interruptPromise st,
   rejectInterruptPromise st).

(** A property of the executor that looks at these variables only *)
Definition on_core (P : @State Conv -> Prop) : Prop :=
  forall st st', core st' = core st -> P st -> P st'.

(** A call of [console.error] *)
Definition is_error (call : ConsoleCall) : Prop := if call is CError _ then True else False.

(** The path under which [requireFromSideOutputs] looks [id] up *)
Definition side_filename (dirname id : string) : string :=
  let filename := normalizeJoin dirname id in
  if path_extname filename =? "" then filename +:+ ".js" else filename.

(** Every compiled instance in the cache was compiled from the source text
    that is recorded for its path now. *)
Definition cache_coherent st : Prop :=
  forall p m,
    sideModules st !! p = Some m ->
    mod_filename m = p /\ sideOutputs st !! p = Some (mod_source m).


End Vocabulary.

(** * Concrete collaborators

    Stand-ins for the collaborators, to run the executor on examples. *)

(** What the converter answers, given [prevDecl] and the snippet *)
Abbreviation Table := (string -> string -> ConvertResult).

(** A converter that answers from its table and registers every module
    without a diagnostic *)
Definition table_converter : Converter Table :=
  {| convert c prev src := (Ok (c prev src), c);
     addModule c name src meta := (Ok [], c) |}.

(** [normalizeJoin dir id] for an [id] of the form [./name] or [name] *)
Definition join_path (dir id : string) : string :=
  dir +:+ "/" +:+ (if String.prefix "./" id then substring 2 (String.length id - 2) id else id).

(** The extension: from the last dot after the last slash *)
Fixpoint extname_from (ext s : string) : string :=
  match s with
  | EmptyString => ext
  | String c s' =>
      if Ascii.eqb c "/"%char then extname_from "" s'
      else if Ascii.eqb c "."%char then extname_from s s'
      else extname_from ext s'
  end.

(** The directory: what precedes the last slash *)
Fixpoint dirname_of (s : string) : option string :=
  match s with
  | EmptyString => None
  | String c s' =>
      match dirname_of s' with
      | Some d => Some (String c d)
      | None => if Ascii.eqb c "/"%char then Some "" else None
      end
  end.

(** [Object.prototype]: the functions it holds, and the accessor
    [__proto__] *)
Definition object_prototype : Value := VObject 100.

Definition builtin_names : list string :=
  ["constructor"; "hasOwnProperty"; "isPrototypeOf"; "propertyIsEnumerable";
   "toLocaleString"; "toString"; "valueOf"; "__defineGetter__"; "__defineSetter__";
   "__lookupGetter__"; "__lookupSetter__"].

Fixpoint index_of (name : string) (names : list string) : option nat :=
  match names with
  | [] => None
  | n :: names' => if name =? n then Some 0 else S <$> index_of name names'
  end.

Definition in_object_prototype (name : string) : Inherited :=
  if name =? "__proto__" then ProtoAccessor
  else
    match index_of name builtin_names with
    | Some i => DataProperty (VObject (101 + i)) true
    | None => NoProperty
    end.

(** [frozen_point] is [Object.freeze({x: 1})]; every other object has no
    property of its own.  All inherit from [Object.prototype]. *)
Definition frozen_point : Value := VObject 150.

Definition example_inherited (p : Value) (name : string) : Inherited :=
  match p with
  | VObject 150 =>
      if name =? "x" then DataProperty (VNum 1) false else in_object_prototype name
  | _ => in_object_prototype name
  end.

Definition example_host
  (meta : string -> CodeMetadata)
  (script : string -> Prog (Result RetVal))
  (compile : string -> string -> Prog (Result Value))
  (host : HostRequire -> list string -> Result Value) : Host :=
  {| getCodeMetadata := fun src => Ok (meta src);
     normalizeJoin := join_path;
     path_extname := extname_from "";
     path_dirname := fun s => default "." (dirname_of s);
     nodeModulePaths := fun dir => [dir +:+ "/node_modules"];
     runInThisContext := script;
     module_compile := compile;
     host_apply := host;
     tslab := VObject 0;
     stackDepth := 8;
     rangeError := VError "Maximum call stack size exceeded";
     objectPrototype := object_prototype;
     inherited := example_inherited;
     readOnlyError := fun name =>
       VError ("Cannot assign to read only property '" +:+ name +:+ "' of object");
     invariantError := fun name =>
       VError ("'defineProperty' on proxy: trap returned truish for '" +:+ name +:+ "'");
     console_reply := fun sofar call => Ok tt |}.

Definition root : string := "/root".

Definition for_node (src : string) : CodeMetadata := mkCodeMetadata ModeNode None.

Definition no_module (content filename : string) : Prog (Result Value) :=
  Ret (Thrown (VError "unexpected module")).

Definition cannot_find (req : HostRequire) (args : list string) : Result Value :=
  Thrown (VError ("Cannot find module '" +:+ default "" (head args) +:+ "'")).

(** [let x = 1; throw new Error('my error');] *)
Definition throwing_snippet (prev src : string) : ConvertResult :=
  mkConvertResult (Some "let x = 1; throw new Error('my error');")
    (Some "declare let x: number;") [] false None None.

Definition throwing_host : Host :=
  example_host for_node
    (fun _ => SetExport "x" (VNum 1) (fun _ => Ret (Thrown (VError "my error"))))
    no_module cannot_find.

(** A snippet that is the expression [null] *)
Definition null_snippet (prev src : string) : ConvertResult :=
  mkConvertResult (Some "exports.tsLastExpr = null;") (Some "") [] false None
    (Some "tsLastExpr").

Definition null_host : Host :=
  example_host for_node
    (fun _ => SetExport "tsLastExpr" VNull (fun _ => Ret (Ok (Plain VUndefined))))
    no_module cannot_find.

(** [x * 2] after [let x = 5] *)
Definition product_snippet (prev src : string) : ConvertResult :=
  mkConvertResult (Some "exports.tsLastExpr = exports.x * 2;") (Some "declare let x: number;")
    [] false None (Some "tsLastExpr").

Definition product_host : Host :=
  example_host for_node
    (fun _ =>
       GetExport "x" (fun x =>
         SetExport "tsLastExpr" (if x is VNum n then VNum (n * 2) else VUndefined)
           (fun _ => Ret (Ok (Plain VUndefined)))))
    no_module cannot_find.


(** [await new Promise(resolve => setTimeout(() => resolve('done'), 10));] *)
Definition awaiting_snippet (prev src : string) : ConvertResult :=
  mkConvertResult (Some "exports.tsLastExpr = await new Promise(...);") (Some "")
    [] true None (Some "tsLastExpr").

Definition awaiting_host : Host :=
  example_host for_node (fun _ => Ret (Ok (PromiseOf None))) no_module cannot_find.

(** A side module [a.ts] that is [export = 0;], imported as ["./a"] *)
Definition zero_module (content filename : string) : Prog (Result Value) :=
  if content =? "module.exports = 0;" then Ret (Ok (VNum 0))
  else Ret (Thrown (VError "unexpected module")).

Definition zero_host : Host :=
  example_host for_node (fun _ => Ret (Ok (Plain VUndefined))) zero_module cannot_find.

(** A side module [a.ts] with [export const a = ...], compiled to an object *)
Definition object_module (content filename : string) : Prog (Result Value) :=
  if content =? "exports.a = 'AAA';" then Ret (Ok (VObject 1))
  else if content =? "exports.a = 'XXX';" then Ret (Ok (VObject 2))
  else Ret (Thrown (VError "unexpected module")).

Definition object_host : Host :=
  example_host for_node (fun _ => Ret (Ok (Plain VUndefined))) object_module cannot_find.

(** The executor that [createExecutor] returns for the converter [c], used
    for Node and for the browser.  The hosts of the examples have the same
    [Object.prototype], so that it is the same executor for all of them. *)
Definition fresh (c : Table) : @State Table := @createExecutor Table null_host c c.

(** * More concrete collaborators *)

(** A converter that reports a diagnostic for every module it registers *)
Definition strict_converter : Converter Table :=
  {| convert c prev src := (Ok (c prev src), c);
     addModule c name src meta :=
       (Ok [mkDiagnostic (Some (name +:+ ".ts")) 2 0 "Cannot find name 'y'."], c) |}.






(** [/** @module mylib */] *)
Definition as_module (src : string) : CodeMetadata := mkCodeMetadata ModeNode (Some "mylib").

Definition module_host : Host :=
  example_host as_module (fun _ => Ret (Ok (Plain VUndefined))) no_module cannot_find.

(** [/** @browser */] *)
Definition for_browser (src : string) : CodeMetadata := mkCodeMetadata ModeBrowser None.

Definition browser_host : Host :=
  example_host for_browser (fun _ => Ret (Ok (Plain VUndefined))) no_module cannot_find.

(** [interface Point { x: number }] *)
Definition interface_snippet (prev src : string) : ConvertResult :=
  mkConvertResult None (Some "interface Point { x: number }") [] false
    (Some [mkSideOutput "/root/a.js" "exports.a = 1;"]) None.

(** An async body that throws ['Good Bye Promise'] before its first [await]:
    the promise [runInThisContext] returns is rejected already when [execute]
    reaches its own [await] *)
Definition rejected_host : Host :=
  example_host for_node
    (fun _ => Ret (Ok (PromiseOf (Some (Thrown (VStr "Good Bye Promise"))))))
    no_module cannot_find.

(** [new Promise(() => { throw new Error('rejected immediately'); });] *)
Definition detached_snippet (prev src : string) : ConvertResult :=
  mkConvertResult (Some "exports.tsLastExpr = new Promise(...);") (Some "") [] false None
    (Some "tsLastExpr").

(** The body stores the promise as its trailing expression; the script also
    hands a rejected promise back as its result, which a body without
    top-level await does not do in practice, to show that [execute] ignores it *)
Definition detached_host : Host :=
  example_host for_node
    (fun _ =>
       SetExport "tsLastExpr" (VObject 7)
         (fun _ => Ret (Ok (PromiseOf (Some (Thrown (VError "rejected immediately")))))))
    no_module cannot_find.

(** An underlying [require] that knows ["crypto"] *)
Definition builtin (req : HostRequire) (args : list string) : Result Value :=
  if decide (args = ["crypto"]) then Ok (VObject 9) else cannot_find req args.

Definition builtin_host : Host :=
  example_host for_node (fun _ => Ret (Ok (Plain VUndefined))) object_module builtin.

(** A side module [a.ts] that starts with [import "./a"] *)
Definition selfish_module (content filename : string) : Prog (Result Value) :=
  CallRequire ["./a"]
    (fun imported => if imported is Thrown e then Ret (Thrown e) else Ret (Ok (VObject 1))).

Definition selfish_host : Host :=
  example_host for_node (fun _ => Ret (Ok (Plain VUndefined))) selfish_module cannot_find.

(** The side modules of the test [dependencies]: [b/c.ts] imports ["../a"];
    here [a.ts] imports ["./b"] *)
Definition chained_module (content filename : string) : Prog (Result Value) :=
  if content =? "import './b'" then
    CallRequire ["./b"]
      (fun imported => if imported is Thrown e then Ret (Thrown e) else Ret (Ok (VObject 1)))
  else Ret (Ok (VObject 2)).

Definition chained_host : Host :=
  example_host for_node (fun _ => Ret (Ok (Plain VUndefined))) chained_module cannot_find.

(** The side module [rand.ts] of the test [cache module], which starts with
    [import { randomBytes } from "crypto"] *)
Definition rand_module (content filename : string) : Prog (Result Value) :=
  CallRequire ["crypto"]
    (fun imported => if imported is Thrown e then Ret (Thrown e) else Ret (Ok (VObject 3))).

Definition rand_host : Host :=
  example_host for_node (fun _ => Ret (Ok (Plain VUndefined))) rand_module builtin.

(** * The rest of the executor: [inspect] and [complete] *)

(** [inspect] and [complete] of a [Converter]; each returns or throws.
    [Info] and [Completions] stand for [ts.QuickInfo] and
    [CompletionInfo]. *)
Class Inspector (Conv Info Completions : Type) := {
  conv_inspect : Conv -> string -> string -> Z -> Result Info * Conv;
  conv_complete : Conv -> string -> string -> Z -> Result Completions * Conv
}.

Section Inspection.

Context {Conv Info Completions : Type}.
Context `{!Converter Conv} `{!Host} `{!Inspector Conv Info Completions}.

Definition inspect (src : string) (position : Z) : @M Conv Info :=
  bind (lift (getCodeMetadata src)) (fun meta =>
    if mode meta is ModeBrowser then
      fun st =>
        let '(info, c) := conv_inspect (browser st) (prevDecl st) src position in
        (info, set_browser c st)
    else
      fun st =>
        let '(info, c) := conv_inspect (node st) (prevDecl st) src position in
        (info, set_node c st)).

Definition complete (src : string) (position : Z) : @M Conv Completions :=
  bind (lift (getCodeMetadata src)) (fun meta =>
    if mode meta is ModeBrowser then
      fun st =>
        let '(info, c) := conv_complete (browser st) (prevDecl st) src position in
        (info, set_browser c st)
    else
      fun st =>
        let '(info, c) := conv_complete (node st) (prevDecl st) src position in
        (info, set_node c st)).

(** The converter that [inspect] and [complete] ask about a snippet of the
    mode [m] *)
Definition asked (m : Mode) (st : @State Conv) : Conv :=
  if m is ModeBrowser then browser st else node st.

(** What [inspect] and [complete] yield in the executor [st] is what the
    converter of the snippet's mode answers when it is given the
    declarations [decl]. *)
Definition asks_with (decl : string) (src : string) (position : Z) (st : @State Conv) : Prop :=
  exists meta,
    getCodeMetadata src = Ok meta /\
    fst (inspect src position st)
      = fst (conv_inspect (asked (mode meta) st) decl src position) /\
    fst (complete src position st)
      = fst (conv_complete (asked (mode meta) st) decl src position).

End Inspection.

(** An inspector that answers with the declarations it is given *)
Definition echo_inspector : Inspector Table string string :=
  {| conv_inspect c prev src position := (Ok prev, c);
     conv_complete c prev src position := (Ok prev, c) |}.
(** * [createConverterWithFileWatcher] ([src/src/testutil.ts])

    The set [fileWathchers] holds the callbacks of the promises that
    [waitFileEvent] returned and that no file event has resolved yet.  A
    callback is known by the promise it resolves. *)

Inductive FileWatcherEventKind := Created | Changed | Deleted.

Record FileEvent := mkFileEvent {
  ev_fileName : string;
  ev_eventKind : FileWatcherEventKind
}.

(** The closure [cb] of one call of [waitFileEvent] *)
Record Callback := mkCallback {
  cb_promise : nat;
  cb_fileName : option string;
  cb_eventKind : option FileWatcherEventKind
}.

Record Watch := mkWatch {
  fileWathchers : list Callback;     (* the Set, in insertion order *)
  resolved : gmap nat FileEvent;     (* the promises that are resolved, with their values *)
  created : nat                      (* how many promises were created *)
}.

Definition kind_eqb (a b : FileWatcherEventKind) : bool :=
  match a, b with
  | Created, Created | Changed, Changed | Deleted, Deleted => true
  | _, _ => false
  end.

(** [(fileName == null || fileName === fn) && (eventKind == null || eventKind === ek)] *)
Definition wanted (fileName : option string) (eventKind : option FileWatcherEventKind)
  (ev : FileEvent) : bool :=
  (if fileName is Some f then f =? ev_fileName ev else true)
  && (if eventKind is Some k then kind_eqb k (ev_eventKind ev) else true).

(** [done(value)]: resolving a promise that is resolved already does
    nothing. *)
Definition resolve (p : nat) (value : FileEvent) (w : Watch) : Watch :=
  if resolved w !! p is None
  then mkWatch (fileWathchers w) (<[p := value]> (resolved w)) (created w)
  else w.

(** [fileWathchers.delete(cb)] *)
Definition unwatch (cb : Callback) (w : Watch) : Watch :=
  mkWatch (filter (fun c => cb_promise c ≠ cb_promise cb) (fileWathchers w))
    (resolved w) (created w).

(** A call [cb(fn, ek)] *)
Definition call_callback (cb : Callback) (ev : FileEvent) (w : Watch) : Watch :=
  if wanted (cb_fileName cb) (cb_eventKind cb) ev
  then resolve (cb_promise cb) ev (unwatch cb w)
  else w.

(** [_fileWatcher(fileName, eventKind)]: [forEach] visits the callbacks that
    are in the set when the event arrives; a callback removes none but
    itself. *)
Definition fileWatcher (ev : FileEvent) (w : Watch) : Watch :=
  foldl (fun w cb => call_callback cb ev w) w (fileWathchers w).

(** [waitFileEvent(fileName, eventKind)]: the promise, and the set with its
    callback added *)
Definition waitFileEvent (fileName : option string) (eventKind : option FileWatcherEventKind)
  (w : Watch) : nat * Watch :=
  let p := created w in
  (p, mkWatch (fileWathchers w ++ [mkCallback p fileName eventKind]) (resolved w) (S p)).

(** What the test does with the converter: it waits, or a file changes *)
Inductive WatchAction :=
| Wait (fileName : option string) (eventKind : option FileWatcherEventKind)
| Fire (ev : FileEvent).

Definition watch_step (w : Watch) (a : WatchAction) : Watch :=
  match a with
  | Wait f k => snd (waitFileEvent f k w)
  | Fire ev => fileWatcher ev w
  end.

(** The file events among the actions *)
Definition fired (acts : list WatchAction) : list FileEvent :=
  omap (fun a => if a is Fire ev then Some ev else None) acts.

(** The set of [createConverterWithFileWatcher]: [new Set()] *)
Definition no_watch : Watch := mkWatch [] ∅ 0.


(** The promises that the event [ev] resolves among the callbacks [l] *)
Definition wanting (ev : FileEvent) (l : list Callback) : list nat :=
  cb_promise <$> filter (fun cb => wanted (cb_fileName cb) (cb_eventKind cb) ev = true) l.

(** What holds of the set and of the promises at any time: a promise has at
    most one callback, the callbacks in the set belong to promises that were
    created and are not resolved, and no promise is resolved before it is
    created. *)
Definition watch_ok (w : Watch) : Prop :=
  NoDup (cb_promise <$> fileWathchers w) /\
  (forall cb, cb ∈ fileWathchers w ->
     cb_promise cb < created w /\ resolved w !! cb_promise cb = None) /\
  (forall p, created w <= p -> resolved w !! p = None).


(** * Properties *)

Section Properties.

Context {Conv : Type} `{!Converter Conv} `{!Host}.
Variable rootDir : string.

Implicit Types (st : @State Conv) (e v : Value) (name prop src : string).
Implicit Types (P : @State Conv -> Prop).

Ltac munfold :=
  unfold bind, ret, throw, gets, modify, lift, try_catch, console_error,
    console_log, console_call, exports_get, exports_delete, run_call in *.

(** ** Deleting a list of keys *)

Lemma foldl_delete_None {V} (names : list string) (m : gmap string V) name :
  m !! name = None -> foldl (fun acc n => delete n acc) m names !! name = None.
Proof.
  revert m. induction names as [|n names IH]; intros m Hm; simpl; [exact Hm|].
  apply IH. destruct (decide (n = name)) as [->|Hne].
  - apply lookup_delete_eq.
  - rewrite lookup_delete_ne by congruence. exact Hm.
Qed.

Lemma foldl_delete_elem {V} (names : list string) (m : gmap string V) name :
  name ∈ names -> foldl (fun acc n => delete n acc) m names !! name = None.
Proof.
  revert m. induction names as [|n names IH]; intros m Hin; simpl.
  - by apply elem_of_nil in Hin.
  - apply elem_of_cons in Hin as [->|Hin]; [|by apply IH].
    apply foldl_delete_None, lookup_delete_eq.
Qed.

Lemma delete_all_names {V} (m : gmap string V) :
  foldl (fun acc n => delete n acc) m (map_to_list m).*1 = ∅.
Proof.
  apply map_eq. intros name. rewrite lookup_empty.
  destruct (m !! name) as [x|] eqn:Hx.
  - apply foldl_delete_elem, list_elem_of_fmap. exists (name, x).
    split; [reflexivity|]. by apply elem_of_map_to_list.
  - by apply foldl_delete_None.
Qed.

(** ** Computations that keep a property of the executor *)

Lemma maintains_ret {A} P (a : A) : maintains P (ret a).
Proof. intros st HP. exact HP. Qed.

Lemma maintains_throw {A} P e : maintains P (@throw Conv A e).
Proof. intros st HP. exact HP. Qed.

Lemma maintains_lift {A} P (r : Result A) : maintains P (lift r).
Proof. intros st HP. exact HP. Qed.

Lemma maintains_gets {A} P (f : @State Conv -> A) : maintains P (gets f).
Proof. intros st HP. exact HP. Qed.

Lemma maintains_modify P (f : @State Conv -> @State Conv) :
  (forall st, P st -> P (f st)) -> maintains P (modify f).
Proof. intros Hf st HP. by apply Hf. Qed.

Lemma maintains_bind {A B} P (m : M A) (k : A -> M B) :
  maintains P m -> (forall a, maintains P (k a)) -> maintains P (bind m k).
Proof.
  intros Hm Hk st HP. unfold bind. specialize (Hm st HP).
  destruct (m st) as [[a|e] st']; simpl in *; [by apply Hk|exact Hm].
Qed.

Lemma maintains_try_catch {A} P (m : M A) (h : Value -> M A) :
  maintains P m -> (forall e, maintains P (h e)) -> maintains P (try_catch m h).
Proof.
  intros Hm Hh st HP. unfold try_catch. specialize (Hm st HP).
  destruct (m st) as [[a|e] st']; simpl in *; [exact Hm|by apply Hh].
Qed.

(** ** What hosted code can reach

    Hosted code reaches the executor through [exports] and [require] only.
    Through [exports] it changes the properties of the target and its
    prototype, and nothing else. *)

Lemma beyond_outside st st' :
  beyond_exports st' = beyond_exports st -> outside_realm st' = outside_realm st.
Proof. unfold beyond_exports, outside_realm. congruence. Qed.

Lemma set_proto_beyond v st : beyond_exports (snd (set_proto v st)) = beyond_exports st.
Proof. unfold set_proto. destruct (is_object v || _); reflexivity. Qed.

Lemma target_assign_beyond prop v st :
  beyond_exports (snd (target_assign prop v st)) = beyond_exports st.
Proof.
  unfold target_assign. munfold. simpl.
  destruct (exports st !! prop); [reflexivity|].
  destruct (lookup_chain (exports_proto st) prop) as [|w [|]|]; try reflexivity.
  apply set_proto_beyond.
Qed.

Lemma defineProperty_beyond prop attrs st :
  beyond_exports (snd (defineProperty prop attrs st)) = beyond_exports st.
Proof.
  unfold defineProperty. destruct (prop =? "__esModule"); [reflexivity|].
  destruct (d_get attrs) as [[a|e]|]; munfold; simpl; try reflexivity.
  - pose proof (target_assign_beyond prop a st) as Ht.
    destruct (target_assign prop a st) as [[[]|e] st']; exact Ht.
  - pose proof (target_assign_beyond prop (d_value attrs) st) as Ht.
    destruct (target_assign prop (d_value attrs) st) as [[[]|e] st']; exact Ht.
Qed.

Lemma exports_define_beyond prop attrs st :
  beyond_exports (snd (exports_define prop attrs st)) = beyond_exports st.
Proof.
  unfold exports_define. munfold.
  pose proof (defineProperty_beyond prop attrs st) as Hd.
  destruct (defineProperty prop attrs st) as [[ok|e] st']; simpl in *; [|exact Hd].
  destruct (negb ok); [exact Hd|]. destruct (d_configurable attrs) as [[|]|]; exact Hd.
Qed.

Lemma exports_set_beyond name v st :
  beyond_exports (snd (exports_set name v st)) = beyond_exports st.
Proof.
  unfold exports_set. munfold. simpl.
  assert (forall attrs,
    beyond_exports
      (snd (match exports_define name attrs st with
            | (Ok _, st') => (Ok true, st')
            | (Thrown e, st') => (Thrown e, st')
            end)) = beyond_exports st) as Hdef.
  { intros attrs. pose proof (exports_define_beyond name attrs st) as Hd.
    destruct (exports_define name attrs st) as [[[]|e] st']; exact Hd. }
  destruct (exports st !! name); [apply Hdef|].
  destruct (lookup_chain (exports_proto st) name) as [|w [|]|];
    try apply Hdef; try reflexivity.
  pose proof (set_proto_beyond v st) as Hp.
  destruct (set_proto v st) as [[[]|e] st']; exact Hp.
Qed.

Lemma run_maintains {R} P (require : list string -> M Value) (p : Prog R) :
  blind P ->
  (forall args, maintains P (require args)) ->
  forall st, P st -> P (snd (run require p st)).
Proof.
  intros Hblind Hreq.
  induction p as [r|name k IH|name v k IH|name k IH|name attrs k IH|args k IH];
    intros st HP; simpl.
  - exact HP.
  - by apply IH.
  - pose proof (exports_set_beyond name v st) as Hs.
    destruct (exports_set name v st) as [r st']. apply IH. by eapply Hblind.
  - apply IH. eapply Hblind; [|exact HP]. reflexivity.
  - pose proof (exports_define_beyond name attrs st) as Hd.
    destruct (exports_define name attrs st) as [r st']. apply IH. by eapply Hblind.
  - specialize (Hreq args st HP). destruct (require args st) as [r st']. by apply IH.
Qed.

Lemma blind_outside st0 : blind (fun st => outside_realm st = outside_realm st0).
Proof. intros st st' Hb Hst. rewrite <- Hst. by apply beyond_outside. Qed.

Lemma run_outside {R} (require : list string -> M Value) (p : Prog R) :
  (forall args st, outside_realm (snd (require args st)) = outside_realm st) ->
  forall st, outside_realm (snd (run require p st)) = outside_realm st.
Proof.
  intros Hreq st.
  apply (run_maintains (fun s => outside_realm s = outside_realm st) require p
           (blind_outside st)); [|reflexivity].
  intros args s Hs. rewrite <- Hs. apply Hreq.
Qed.

(** What [requireFromSideOutputs] does once the path is known *)
Lemma requireFromSideOutputs_unfold inner dirname id st :
  requireFromSideOutputs inner dirname id st =
  let filename := side_filename dirname id in
  match sideModules st !! filename with
  | Some cached => (Ok (mod_exports cached), st)
  | None =>
      match sideOutputs st !! filename with
      | None => (Ok VNull, st)
      | Some content =>
          match run (inner (ModuleRequire filename) (path_dirname filename))
                  (module_compile content filename) st with
          | (Ok exps, st1) =>
              (Ok exps,
               set_sideModules
                 (insert filename
                    (mkNodeModule filename (nodeModulePaths (path_dirname filename))
                       exps content)) st1)
          | (Thrown e, st1) => (Thrown e, st1)
          end
      end
  end.
Proof.
  unfold requireFromSideOutputs, side_filename. munfold. simpl.
  destruct (sideModules st !! _) as [cached|]; [reflexivity|].
  destruct (sideOutputs st !! _) as [content|]; [|reflexivity]. simpl.
  destruct (run _ _ st) as [[exps|e] st1]; reflexivity.
Qed.

(** A call with one argument: ['tslab'] first, then the side modules, and
    the underlying [require] when what the side modules gave is falsy. *)
Lemma wrapRequire_order depth req' dirname arg st :
  wrapRequire (S depth) req' dirname [arg] st =
  if arg =? "tslab" then (Ok tslab, st)
  else
    match requireFromSideOutputs (wrapRequire depth) dirname arg st with
    | (Ok found, st') =>
        if truthy found then (Ok found, st') else (host_apply req' [arg], st')
    | (Thrown e, st') => (Thrown e, st')
    end.
Proof.
  simpl. unfold wrapRequire_apply. destruct (arg =? "tslab"); [reflexivity|].
  munfold. destruct (requireFromSideOutputs _ dirname arg st) as [[found|e] st']; [|reflexivity].
  destruct (truthy found); reflexivity.
Qed.

(** A call with no argument or with several goes to the underlying
    [require]. *)
Lemma wrapRequire_other_arity depth req' dirname args st :
  length args <> 1 ->
  wrapRequire (S depth) req' dirname args st = (host_apply req' args, st).
Proof.
  intros Hlen. simpl. unfold wrapRequire_apply.
  destruct args as [|arg [|arg' args]]; try reflexivity. contradiction.
Qed.

Lemma wrapRequire_outside depth req dirname args st :
  outside_realm (snd (wrapRequire depth req dirname args st)) = outside_realm st.
Proof.
  revert req dirname args st.
  induction depth as [|depth IH]; intros req dirname args st; [reflexivity|].
  destruct args as [|arg [|arg' args]];
    try (rewrite wrapRequire_other_arity by (simpl; lia); reflexivity).
  rewrite wrapRequire_order. destruct (arg =? "tslab"); [reflexivity|].
  rewrite requireFromSideOutputs_unfold. cbv zeta.
  set (filename := side_filename dirname arg).
  destruct (sideModules st !! filename) as [cached|].
  { destruct (truthy (mod_exports cached)); reflexivity. }
  destruct (sideOutputs st !! filename) as [content|]; [|reflexivity].
  pose proof (run_outside
    (wrapRequire depth (ModuleRequire filename) (path_dirname filename))
    (module_compile content filename) (IH _ _) st) as Hrun.
  destruct (run _ (module_compile content filename) st) as [[exps|e] st']; simpl in *.
  - destruct (truthy exps); exact Hrun.
  - exact Hrun.
Qed.

Lemma req_outside args st :
  outside_realm (snd (req rootDir args st)) = outside_realm st.
Proof. apply wrapRequire_outside. Qed.

Lemma run_req_outside {R} (p : Prog R) st :
  outside_realm (snd (run (req rootDir) p st)) = outside_realm st.
Proof. apply run_outside, req_outside. Qed.

(** ** The console *)

Lemma console_returns_app sofar calls calls' :
  console_returns sofar (calls ++ calls') <->
  console_returns sofar calls /\ console_returns (sofar ++ calls) calls'.
Proof.
  revert sofar. induction calls as [|call calls IH]; intros sofar; simpl.
  - rewrite app_nil_r. tauto.
  - rewrite IH, <- app_assoc. simpl. tauto.
Qed.

(** The console is the only variable that a call of the console changes,
    whether it returns or throws. *)
Lemma console_call_state call st :
  snd (console_call call st) = set_console (fun c => c ++ [call]) st.
Proof. reflexivity. Qed.


(** ** Diagnostics and side outputs *)

Lemma printDiagnostics_spec diags st :
  console_returns (console st) (map diagnostic_call diags) ->
  printDiagnostics diags st =
  (Ok tt, set_console (fun c => c ++ map diagnostic_call diags) st).
Proof.
  revert st. induction diags as [|diag diags IH]; intros st Hret; simpl.
  - unfold ret, set_console. rewrite app_nil_r. by destruct st.
  - destruct Hret as [Hfirst Hrest]. munfold.
    change (CError _) with (diagnostic_call diag). rewrite Hfirst.
    rewrite IH by exact Hrest. unfold set_console. simpl.
    rewrite <- app_assoc. reflexivity.
Qed.

(** Whatever the console does, [printDiagnostics] changes nothing but the
    console, to which it adds calls of [console.error]. *)
Lemma printDiagnostics_state diags st :
  exists calls,
    snd (printDiagnostics diags st) = set_console (fun c => c ++ calls) st /\
    Forall is_error calls /\
    (diags <> [] -> calls <> []).
Proof.
  revert st. induction diags as [|diag diags IH]; intros st; simpl.
  - exists []. unfold set_console. rewrite app_nil_r. by destruct st.
  - munfold. change (CError _) with (diagnostic_call diag).
    destruct (console_reply (console st) (diagnostic_call diag)) as [[]|e].
    + destruct (IH (set_console (fun c => c ++ [diagnostic_call diag]) st))
        as (calls & -> & Herr & _).
      exists (diagnostic_call diag :: calls). split; [|split].
      * unfold set_console. simpl. rewrite <- app_assoc. reflexivity.
      * constructor; [exact I|exact Herr].
      * discriminate.
    + exists [diagnostic_call diag]. split; [reflexivity|]. split; [|discriminate].
      by repeat constructor.
Qed.

Lemma updateSideOutputs_spec outs st :
  updateSideOutputs outs st =
  (Ok tt, set_sideModules (evicted outs) (set_sideOutputs (recorded outs) st)).
Proof.
  revert st. induction outs as [|out outs IH]; intros st; simpl.
  - by destruct st.
  - munfold. simpl.
    assert (forall st1, sideModules st1 = delete (path out) (sideModules st) ->
              sideOutputs st1 = sideOutputs st -> exports st1 = exports st ->
              exports_proto st1 = exports_proto st ->
              outside_realm st1 = outside_realm st ->
              updateSideOutputs outs
                (set_sideOutputs (insert (path out) (data out)) st1) =
              (Ok tt, set_sideModules (evicted (out :: outs))
                        (set_sideOutputs (recorded (out :: outs)) st))) as Hgo.
    { intros st1 Hsm Hso Hex Hpr Hout. rewrite IH.
      unfold set_sideModules, set_sideOutputs, outside_realm in *. simpl.
      rewrite Hsm, Hso, Hex, Hpr. injection Hout as _ -> -> -> -> -> -> ->.
      reflexivity. }
    destruct (sideModules st !! path out) as [cached|] eqn:Hc; simpl.
    + apply Hgo; reflexivity.
    + apply Hgo; try reflexivity. symmetry. by apply delete_id.
Qed.

Lemma evicted_elem outs p sm :
  p ∈ map path outs -> evicted outs sm !! p = None.
Proof.
  intros Hin. unfold evicted.
  replace (foldl (fun sm out => delete (path out) sm) sm outs)
    with (foldl (fun acc n => delete n acc) sm (map path outs)).
  - by apply foldl_delete_elem.
  - clear Hin. revert sm. induction outs as [|o outs IH]; intros sm; simpl; [reflexivity|].
    apply IH.
Qed.

Lemma recorded_other outs p so :
  p ∉ map path outs -> recorded outs so !! p = so !! p.
Proof.
  unfold recorded. revert so. induction outs as [|o outs IH]; intros so Hp; simpl; [reflexivity|].
  simpl in Hp. apply not_elem_of_cons in Hp as [Hne Hp].
  rewrite IH by exact Hp. apply lookup_insert_ne. congruence.
Qed.

Lemma evicted_other outs p sm :
  p ∉ map path outs -> evicted outs sm !! p = sm !! p.
Proof.
  unfold evicted. revert sm. induction outs as [|o outs IH]; intros sm Hp; simpl; [reflexivity|].
  simpl in Hp. apply not_elem_of_cons in Hp as [Hne Hp].
  rewrite IH by exact Hp. apply lookup_delete_ne. congruence.
Qed.

(** The text recorded for a path is the last one that the list has for it,
    and the earlier text when the list has none. *)
Lemma recorded_lookup outs p so :
  recorded outs so !! p = if last_text p outs is Some text then Some text else so !! p.
Proof.
  unfold recorded, last_text. revert so.
  induction outs as [|out outs IH] using rev_ind; intros so; [reflexivity|].
  rewrite foldl_app, filter_app. simpl.
  destruct (decide (path out = p)) as [<-|Hne].
  - rewrite filter_cons_True, filter_nil by reflexivity.
    rewrite last_snoc. simpl. apply lookup_insert_eq.
  - rewrite filter_cons_False, filter_nil, app_nil_r by exact Hne.
    rewrite lookup_insert_ne by exact Hne. apply IH.
Qed.

Lemma evicted_lookup outs p sm :
  evicted outs sm !! p = if decide (p ∈ map path outs) then None else sm !! p.
Proof.
  destruct (decide (p ∈ map path outs)) as [Hin|Hout].
  - by apply evicted_elem.
  - by apply evicted_other.
Qed.

(** ** [execute], phase by phase *)

Lemma on_core_blind P : on_core P -> blind P.
Proof.
  intros Hcore st st' Hb. apply Hcore. unfold beyond_exports, core in *. congruence.
Qed.

Lemma console_call_maintains P call : on_core P -> maintains P (console_call call).
Proof. intros Hcore st HP. eapply Hcore; [|exact HP]. reflexivity. Qed.

Lemma printDiagnostics_maintains P diags : on_core P -> maintains P (printDiagnostics diags).
Proof.
  intros Hcore. induction diags as [|diag diags IH]; simpl; [apply maintains_ret|].
  apply maintains_bind; [by apply console_call_maintains|intros _; exact IH].
Qed.

(** The end of a successful run: the executor it leaves is the same whether
    the console returns or throws. *)
Lemma exports_read_prevDecl name d st :
  exports_read name (set_prevDecl d st) = exports_read name st.
Proof. reflexivity. Qed.

Lemma execute_finish_state converted st :
  snd (execute_finish converted st) = after_finish converted st.
Proof.
  unfold execute_finish, after_finish. munfold. simpl.
  destruct (truthy_str (lastExpressionVar converted)); [|reflexivity].
  simpl. rewrite !exports_read_prevDecl.
  destruct (not_nullish _); [|reflexivity].
  simpl. rewrite !exports_read_prevDecl.
  destruct (console_reply _ _) as [[]|e]; reflexivity.
Qed.

(** When the console returns, the end of a successful run reports
    success. *)
Lemma execute_finish_spec converted st :
  console_returns (console st) (trailing converted st) ->
  execute_finish converted st = (Ok true, after_finish converted st).
Proof.
  intros Hret.
  unfold execute_finish, after_finish, trailing in *. munfold. simpl.
  destruct (truthy_str (lastExpressionVar converted)); [|reflexivity].
  simpl. rewrite !exports_read_prevDecl. cbv zeta in Hret.
  destruct (not_nullish _); [|reflexivity].
  simpl. rewrite !exports_read_prevDecl. destruct Hret as [-> _]. reflexivity.
Qed.

(** All that the end of a successful run can throw is what the console
    throws. *)
Lemma execute_finish_result converted st :
  fst (execute_finish converted st) = Ok true \/
  exists call e,
    trailing converted st = [call] /\
    console_reply (console st) call = Thrown e /\
    fst (execute_finish converted st) = Thrown e.
Proof.
  unfold execute_finish, trailing. munfold. simpl.
  destruct (truthy_str (lastExpressionVar converted)); [|by left].
  simpl. rewrite !exports_read_prevDecl.
  destruct (not_nullish _); [|by left].
  simpl. rewrite !exports_read_prevDecl.
  destruct (console_reply _ _) as [[]|e] eqn:Hr; [by left|].
  right. eexists _, e. by repeat split.
Qed.

Lemma execute_finish_maintains P converted :
  on_core P -> maintains P (execute_finish converted).
Proof.
  intros Hcore st HP. rewrite execute_finish_state. unfold after_finish. cbv zeta.
  destruct (truthy_str _); [destruct (not_nullish _)|]; (eapply Hcore; [|exact HP]);
    reflexivity.
Qed.

Lemma execute_resume_maintains P fl r :
  on_core P -> maintains P (execute_resume fl r).
Proof.
  intros Hcore. destruct r as [v|e]; simpl.
  - by apply execute_finish_maintains.
  - apply maintains_bind; [by apply console_call_maintains|intros _; apply maintains_ret].
Qed.

(** [execute] when the classifier throws *)
Lemma execute_begin_unclassified src st e :
  getCodeMetadata src = Thrown e ->
  execute_begin rootDir src st = (Thrown e, st).
Proof. intros Hmeta. unfold execute_begin. munfold. rewrite Hmeta. reflexivity. Qed.

(** [execute] for a snippet that declares a module *)
Lemma execute_begin_module src st meta :
  getCodeMetadata src = Ok meta ->
  truthy_str (module meta) = true ->
  execute_begin rootDir src st =
  let name := default "" (module meta) in
  let registered :=
    match mode meta with
    | ModeNode => addModule (node st) name src meta
    | ModeBrowser => addModule (browser st) name src meta
    end in
  let st1 :=
    match mode meta with
    | ModeNode => set_node (snd registered) st
    | ModeBrowser => set_browser (snd registered) st
    end in
  match fst registered with
  | Ok diags =>
      match printDiagnostics diags st1 with
      | (Ok _, st2) => (Ok (Finished true), st2)
      | (Thrown e, st2) => (Thrown e, st2)
      end
  | Thrown e => (Thrown e, st1)
  end.
Proof.
  intros Hmeta Hmod. unfold execute_begin. unfold bind at 1. unfold lift at 1.
  rewrite Hmeta, Hmod. cbv zeta. unfold bind.
  destruct (mode meta).
  - destruct (addModule (node st) _ src meta) as [[diags|e] c]; simpl; [|reflexivity].
    destruct (printDiagnostics diags _) as [[[]|e] st2]; reflexivity.
  - destruct (addModule (browser st) _ src meta) as [[diags|e] c]; simpl; [|reflexivity].
    destruct (printDiagnostics diags _) as [[[]|e] st2]; reflexivity.
Qed.

(** [execute] for a browser snippet that declares no module *)
Lemma execute_begin_browser src st meta :
  getCodeMetadata src = Ok meta ->
  truthy_str (module meta) = false ->
  mode meta = ModeBrowser ->
  execute_begin rootDir src st = (Ok (Finished true), st).
Proof.
  intros Hmeta Hmod Hmode. unfold execute_begin. unfold bind at 1. unfold lift at 1.
  rewrite Hmeta, Hmod, Hmode. reflexivity.
Qed.

(** [execute] when the converter throws *)
Lemma execute_begin_unconverted src st e :
  for_converter src ->
  fst (convert (node st) (prevDecl st) src) = Thrown e ->
  execute_begin rootDir src st =
  (Thrown e, set_node (snd (convert (node st) (prevDecl st) src)) st).
Proof.
  intros (meta & Hmeta & Hmod & Hmode) Hconv. unfold execute_begin.
  unfold bind at 1. unfold lift at 1. rewrite Hmeta, Hmod, Hmode. unfold bind at 1.
  destruct (convert (node st) (prevDecl st) src) as [r c]. simpl in Hconv. subst r.
  reflexivity.
Qed.

(** [execute] for a snippet that the converter has converted *)
Lemma execute_begin_converts src st converted :
  converts src st converted ->
  execute_begin rootDir src st =
  let st1 := after_convert converted src st in
  if (0 <? length (diagnostics converted))%nat then
    match printDiagnostics (diagnostics converted) st1 with
    | (Ok _, st2) => (Ok (Finished false), st2)
    | (Thrown e, st2) => (Thrown e, st2)
    end
  else if negb (truthy_str (output converted)) then
    (Ok (Finished true), set_prevDecl (default "" (declOutput converted)) st1)
  else
    match run (req rootDir) (runInThisContext (wrapped converted)) st1 with
    | (Thrown e, st2) =>
        match console_error [e] st2 with
        | (Ok _, st3) => (Ok (Finished false), st3)
        | (Thrown e', st3) => (Thrown e', st3)
        end
    | (Ok r, st2) =>
        if hasToplevelAwait converted && truthy_ret r then
          (Ok (Awaiting
                 (mkInFlight converted (interruptPromise st2)
                    (race r (promises st2 !! interruptPromise st2)))), st2)
        else
          match execute_finish converted st2 with
          | (Ok b, st3) => (Ok (Finished b), st3)
          | (Thrown e, st3) => (Thrown e, st3)
          end
    end.
Proof.
  intros [(meta & Hmeta & Hmod & Hmode) Hconv]. unfold execute_begin, after_convert.
  unfold bind at 1. unfold lift at 1. rewrite Hmeta, Hmod, Hmode. unfold bind at 1.
  destruct (convert (node st) (prevDecl st) src) as [r conv']. simpl in Hconv. subst r.
  simpl snd. unfold bind at 1.
  assert ((if cr_sideOutputs converted is Some outs then updateSideOutputs outs else ret tt)
            (set_node conv' st) =
          (Ok tt,
           mkState (recorded (default [] (cr_sideOutputs converted)) (sideOutputs st))
             (evicted (default [] (cr_sideOutputs converted)) (sideModules st))
             (exports st) (exports_proto st) (prevDecl st) (promises st) (interruptPromise st)
             (rejectInterruptPromise st) (console st) conv' (browser st))) as ->.
  { destruct (cr_sideOutputs converted) as [outs|]; simpl.
    - rewrite updateSideOutputs_spec. reflexivity.
    - reflexivity. }
  cbv zeta.
  destruct (0 <? length (diagnostics converted))%nat.
  { unfold bind. destruct (printDiagnostics _ _) as [[[]|e] st2]; reflexivity. }
  destruct (truthy_str (output converted)); [|reflexivity].
  change (negb true) with false. cbv beta iota.
  unfold bind at 1. unfold try_catch. unfold bind at 1. unfold run_call.
  match goal with |- context [run ?r ?p ?s] => destruct (run r p s) as [[r0|e] st2] end.
  - unfold ret at 1. cbv beta iota.
    destruct (hasToplevelAwait converted); simpl.
    + destruct (truthy_ret r0); simpl; [reflexivity|].
      unfold bind. destruct (execute_finish converted st2) as [[b|e] st3]; reflexivity.
    + unfold bind. destruct (execute_finish converted st2) as [[b|e] st3]; reflexivity.
  - unfold bind. destruct (console_error [e] st2) as [[[]|e'] st3]; reflexivity.
Qed.

(** The four cases of a snippet: the classifier throws, the snippet declares
    a module, it is a browser snippet, or it goes to the converter. *)
Lemma classified src :
  (exists e, getCodeMetadata src = Thrown e) \/
  (exists meta, getCodeMetadata src = Ok meta /\ truthy_str (module meta) = true) \/
  (exists meta, getCodeMetadata src = Ok meta /\ truthy_str (module meta) = false /\
                mode meta = ModeBrowser) \/
  for_converter src.
Proof.
  destruct (getCodeMetadata src) as [meta|e] eqn:Hmeta; [|left; by eexists].
  destruct (truthy_str (module meta)) eqn:Hmod; [right; left; by eexists|].
  destruct (mode meta) eqn:Hmode.
  - right. right. right. exists meta. by repeat split.
  - right. right. left. exists meta. by repeat split.
Qed.

Lemma execute_begin_maintains P src :
  on_core P ->
  (forall outs, maintains P (updateSideOutputs outs)) ->
  (forall args, maintains P (req rootDir args)) ->
  maintains P (execute_begin rootDir src).
Proof.
  intros Hcore Hupd Hreq. unfold execute_begin.
  apply maintains_bind; [apply maintains_lift|intros meta].
  destruct (truthy_str (module meta)).
  { apply maintains_bind.
    - intros st HP. destruct (mode meta).
      + destruct (addModule (node st) _ src meta) as [d c]. simpl.
        eapply Hcore; [|exact HP]. reflexivity.
      + destruct (addModule (browser st) _ src meta) as [d c]. simpl.
        eapply Hcore; [|exact HP]. reflexivity.
    - intros diags. apply maintains_bind; [by apply printDiagnostics_maintains|].
      intros _. apply maintains_ret. }
  destruct (mode meta); [|apply maintains_ret].
  apply maintains_bind.
  { intros st HP. destruct (convert (node st) (prevDecl st) src) as [r c]. simpl.
    eapply Hcore; [|exact HP]. reflexivity. }
  intros converted. apply maintains_bind.
  { destruct (cr_sideOutputs converted); [apply Hupd|apply maintains_ret]. }
  intros _. destruct (0 <? _)%nat.
  { apply maintains_bind; [by apply printDiagnostics_maintains|].
    intros _. apply maintains_ret. }
  destruct (negb _).
  { apply maintains_bind; [|intros _; apply maintains_ret].
    apply maintains_modify. intros st HP. eapply Hcore; [|exact HP]. reflexivity. }
  apply maintains_bind.
  { apply maintains_try_catch.
    - apply maintains_bind; [|intros r; apply maintains_ret].
      intros st HP. unfold run_call.
      apply run_maintains; [by apply on_core_blind|exact Hreq|exact HP].
    - intros e. apply maintains_bind; [by apply console_call_maintains|].
      intros _. apply maintains_ret. }
  assert (maintains P (bind (execute_finish converted) (fun ok => ret (Finished ok))))
    as Hfin.
  { apply maintains_bind; [by apply execute_finish_maintains|intros ok; apply maintains_ret]. }
  intros [[promise|]|returned]; [|exact Hfin|apply maintains_ret].
  destruct (truthy_ret promise); [|exact Hfin].
  apply maintains_bind; [apply maintains_gets|intros signal].
  apply maintains_bind; [apply maintains_gets|intros cell]. apply maintains_ret.
Qed.

(** [execute] suspends at its [await] only after running a body that
    returned something truthy for a snippet with a top-level await. *)
Lemma execute_begin_awaiting src st fl st1 :
  execute_begin rootDir src st = (Ok (Awaiting fl), st1) ->
  exists converted r,
    runs_body src st converted /\
    hasToplevelAwait converted = true /\
    run (req rootDir) (runInThisContext (wrapped converted))
      (after_convert converted src st) = (Ok r, st1) /\
    truthy_ret r = true /\
    fl = mkInFlight converted (interruptPromise st1)
           (race r (promises st1 !! interruptPromise st1)).
Proof.
  intros Hrun.
  destruct (classified src) as [(e & He)|[(meta & Hmeta & Hmod)|[(meta & Hmeta & Hmod & Hmode)|Hc]]].
  - rewrite (execute_begin_unclassified src st e He) in Hrun. discriminate.
  - rewrite (execute_begin_module src st meta Hmeta Hmod) in Hrun. cbv zeta in Hrun.
    destruct (fst _) as [diags|e]; [|discriminate].
    destruct (printDiagnostics _ _) as [[[]|e] st2]; discriminate.
  - rewrite (execute_begin_browser src st meta Hmeta Hmod Hmode) in Hrun. discriminate.
  - destruct (fst (convert (node st) (prevDecl st) src)) as [converted|e] eqn:Hconv.
    2: { rewrite (execute_begin_unconverted src st e Hc Hconv) in Hrun. discriminate. }
    assert (converts src st converted) as Hcv by (by split).
    rewrite (execute_begin_converts src st converted Hcv) in Hrun. cbv zeta in Hrun.
    exists converted. unfold runs_body.
    destruct (diagnostics converted) as [|d ds];
      [change (0 <? length (@nil Diagnostic))%nat with false in Hrun
      |change (0 <? length (d :: ds))%nat with true in Hrun]; cbv iota in Hrun.
    2: { destruct (printDiagnostics _ _) as [[[]|e] st2]; discriminate. }
    destruct (truthy_str (output converted)); simpl negb in Hrun; cbv iota in Hrun;
      [|discriminate].
    destruct (run _ _ _) as [[r|e] st2].
    2: { destruct (console_error [e] st2) as [[[]|e'] st3]; discriminate. }
    exists r.
    assert (forall b, hasToplevelAwait converted && truthy_ret r = b ->
              b = true) as Hb.
    { intros [|]; [reflexivity|]. intros Hf. rewrite Hf in Hrun.
      destruct (execute_finish converted st2) as [[b|e] st3]; discriminate. }
    specialize (Hb _ eq_refl). rewrite Hb in Hrun. apply andb_true_iff in Hb as [Ha Hr].
    injection Hrun as <- <-. by repeat split.
Qed.

(** ** The promise heap *)

Lemma length_reject_promise p reason ps :
  length (reject_promise p reason ps) = length ps.
Proof.
  unfold reject_promise. destruct (ps !! p) as [cell|]; [|reflexivity].
  destruct (settled cell); [reflexivity|]. apply length_insert.
Qed.

Lemma attach_handler_fresh ps cell :
  attach_handler (length ps) (ps ++ [cell]) = ps ++ [mkPromiseCell (settled cell) true].
Proof.
  unfold attach_handler. rewrite list_lookup_middle by reflexivity.
  induction ps as [|c ps IH]; simpl; [reflexivity|]. f_equal. exact IH.
Qed.

Lemma interrupt_spec st :
  interrupt st =
  (Ok tt,
   mkState (sideOutputs st) (sideModules st) (exports st) (exports_proto st) (prevDecl st)
     (reject_promise (rejectInterruptPromise st) interrupted (promises st)
        ++ [mkPromiseCell None true])
     (length (promises st)) (length (promises st)) (console st)
     (node st) (browser st)).
Proof.
  unfold interrupt, resetInterruptPromise. munfold. simpl.
  unfold set_promises. simpl. rewrite length_reject_promise.
  rewrite <- (length_reject_promise (rejectInterruptPromise st) interrupted) at 1.
  rewrite attach_handler_fresh. reflexivity.
Qed.

Lemma is_pending_reject p q reason ps :
  is_pending p (reject_promise q reason ps) = is_pending p ps && negb (p =? q)%nat.
Proof.
  unfold reject_promise, is_pending.
  destruct (Nat.eqb_spec p q) as [->|Hne].
  - destruct (ps !! q) as [cell|] eqn:Hq; [|by rewrite Hq].
    destruct (settled cell) eqn:Hs.
    + rewrite Hq, Hs. reflexivity.
    + rewrite list_lookup_insert_eq by (by eapply lookup_lt_Some).
      simpl. reflexivity.
  - rewrite andb_true_r. destruct (ps !! q) as [cell|] eqn:Hq; [|reflexivity].
    destruct (settled cell); [reflexivity|].
    rewrite list_lookup_insert_ne by congruence. reflexivity.
Qed.

Lemma handled_reject q reason ps :
  (forall p cell, ps !! p = Some cell -> handled cell = true) ->
  forall p cell, reject_promise q reason ps !! p = Some cell -> handled cell = true.
Proof.
  intros Hall p cell. unfold reject_promise.
  destruct (ps !! q) as [c|] eqn:Hq; [|apply Hall].
  destruct (settled c); [apply Hall|].
  destruct (decide (q = p)) as [->|Hne].
  - rewrite list_lookup_insert_eq by (by eapply lookup_lt_Some).
    intros [= <-]. simpl. by eapply Hall.
  - rewrite list_lookup_insert_ne by congruence. apply Hall.
Qed.


Lemma signal_armed_signals st st' :
  signals st' = signals st -> signal_armed st -> signal_armed st'.
Proof.
  unfold signals, signal_armed. intros [= -> -> ->]. trivial.
Qed.

Lemma signals_outside st st' :
  outside_realm st' = outside_realm st -> signals st' = signals st.
Proof. unfold outside_realm, signals. congruence. Qed.

Lemma createExecutor_armed (n b : Conv) : signal_armed (createExecutor n b).
Proof.
  split; [reflexivity|]. split.
  - intros [|p]; simpl; [tauto|]. unfold is_pending. simpl. split; discriminate.
  - intros [|p] cell; simpl; [|discriminate]. by intros [= <-].
Qed.

Lemma interrupt_armed st : signal_armed st -> signal_armed (snd (interrupt st)).
Proof.
  intros (Hsame & Hone & Hh). rewrite interrupt_spec. simpl.
  unfold signal_armed. simpl. split; [reflexivity|]. split.
  - intros p. unfold is_pending.
    destruct (lt_eq_lt_dec p (length (promises st))) as [[Hlt| ->]|Hgt].
    + rewrite lookup_app_l by (by rewrite length_reject_promise).
      pose proof (is_pending_reject p (rejectInterruptPromise st) interrupted (promises st))
        as Hp. unfold is_pending in Hp at 1. rewrite Hp.
      split; [|lia]. intros [Hpend Hne]%andb_true_iff.
      apply Hone in Hpend. apply negb_true_iff, Nat.eqb_neq in Hne. congruence.
    + rewrite list_lookup_middle by (by rewrite length_reject_promise). tauto.
    + rewrite lookup_ge_None_2; [split; [discriminate|lia]|].
      rewrite length_app, length_reject_promise. simpl. lia.
  - intros p cell [Hl|[_ Hl]]%lookup_app_Some.
    + by eapply handled_reject.
    + destruct (p - _)%nat; simpl in Hl; [|discriminate]. by injection Hl as <-.
Qed.

(** ** Events that leave the console and the declarations alone *)

Lemma race_kept_refl fl : race_kept fl fl.
Proof. by repeat split. Qed.

Lemma race_kept_trans fl1 fl2 fl3 : race_kept fl1 fl2 -> race_kept fl2 fl3 -> race_kept fl1 fl3.
Proof.
  intros (Hc & Hs & Hr) (Hc' & Hs' & Hr'). repeat split; try congruence. auto.
Qed.

Lemma settle_race_kept r fl : race_kept fl (settle_race r fl).
Proof.
  unfold settle_race. destruct (fl_race fl) eqn:Hr; [apply race_kept_refl|].
  repeat split. simpl. congruence.
Qed.

Lemma watch_signal_kept ps fl : race_kept fl (watch_signal ps fl).
Proof.
  unfold watch_signal. destruct (_ ≫= _); [apply settle_race_kept|apply race_kept_refl].
Qed.

Lemma body_step seg sys fl :
  inflight sys = Some fl ->
  exists fl',
    inflight (fst (sys_step rootDir (EvBody seg) sys)) = Some fl' /\
    race_kept fl fl' /\
    outside_realm (engine (fst (sys_step rootDir (EvBody seg) sys)))
      = outside_realm (engine sys).
Proof.
  intros Hfl. simpl. pose proof (run_req_outside seg (engine sys)) as Hout.
  destruct (run (req rootDir) seg (engine sys)) as [[r|] st]; simpl in *; rewrite Hfl; simpl.
  - eexists. split; [reflexivity|]. split; [apply settle_race_kept|exact Hout].
  - eexists. split; [reflexivity|]. split; [apply race_kept_refl|exact Hout].
Qed.

Lemma sys_run_cons ev evs sys :
  sys_run rootDir (ev :: evs) sys = sys_run rootDir evs (fst (sys_step rootDir ev sys)).
Proof. reflexivity. Qed.

Lemma sys_run_app evs evs' sys :
  sys_run rootDir (evs ++ evs') sys = sys_run rootDir evs' (sys_run rootDir evs sys).
Proof. apply foldl_app. Qed.


Lemma quiet_step ev sys fl :
  quiet ev ->
  inflight sys = Some fl ->
  exists fl',
    inflight (fst (sys_step rootDir ev sys)) = Some fl' /\
    race_kept fl fl' /\
    console (engine (fst (sys_step rootDir ev sys))) = console (engine sys) /\
    prevDecl (engine (fst (sys_step rootDir ev sys))) = prevDecl (engine sys).
Proof.
  intros Hq Hfl. destruct ev; try contradiction.
  - unfold sys_step. rewrite Hfl, interrupt_spec. simpl. eexists. split; [reflexivity|].
    split; [apply watch_signal_kept|by split].
  - destruct (body_step seg sys fl Hfl) as (fl' & Hfl' & Hk & Ho).
    exists fl'. split; [exact Hfl'|]. split; [exact Hk|].
    unfold outside_realm in Ho. split; congruence.
Qed.

Lemma quiet_run evs sys fl :
  Forall quiet evs ->
  inflight sys = Some fl ->
  exists fl',
    inflight (sys_run rootDir evs sys) = Some fl' /\
    race_kept fl fl' /\
    console (engine (sys_run rootDir evs sys)) = console (engine sys) /\
    prevDecl (engine (sys_run rootDir evs sys)) = prevDecl (engine sys).
Proof.
  intros Hall. revert sys fl. induction Hall as [|ev evs Hev _ IH]; intros sys fl Hfl.
  - exists fl. split; [exact Hfl|]. split; [apply race_kept_refl|by split].
  - rewrite sys_run_cons.
    destruct (quiet_step ev sys fl Hev Hfl) as (fl1 & Hfl1 & Hk1 & Hc1 & Hp1).
    destruct (IH _ _ Hfl1) as (fl2 & Hfl2 & Hk2 & Hc2 & Hp2).
    exists fl2. split; [exact Hfl2|]. split; [by eapply race_kept_trans|].
    split; congruence.
Qed.

(** ** [reset] *)

Lemma reset_spec st :
  reset st =
  (Ok tt,
   mkState (sideOutputs st) (sideModules st) ∅ (exports_proto st) "" (promises st)
     (interruptPromise st) (rejectInterruptPromise st) (console st)
     (node st) (browser st)).
Proof.
  unfold reset. munfold. simpl. unfold set_exports, set_prevDecl. simpl.
  rewrite delete_all_names. reflexivity.
Qed.

(** ** The interrupt promise stays armed *)

Lemma on_core_signals st0 : on_core (fun st => signals st = signals st0).
Proof. intros st st' Hc Hst. rewrite <- Hst. unfold core, signals in *. congruence. Qed.

Lemma execute_begin_signals src st :
  signals (snd (execute_begin rootDir src st)) = signals st.
Proof.
  apply (execute_begin_maintains (fun s => signals s = signals st) src
           (on_core_signals st)); [| |reflexivity].
  - intros outs s Hs. rewrite updateSideOutputs_spec. exact Hs.
  - intros args s Hs. rewrite <- Hs. apply signals_outside, req_outside.
Qed.

Lemma execute_resume_signals fl r st :
  signals (snd (execute_resume fl r st)) = signals st.
Proof.
  by apply (execute_resume_maintains (fun s => signals s = signals st) fl r
              (on_core_signals st)).
Qed.

Lemma sys_step_armed ev sys :
  signal_armed (engine sys) -> signal_armed (engine (fst (sys_step rootDir ev sys))).
Proof.
  intros Harm. destruct ev; unfold sys_step.
  - pose proof (execute_begin_signals src (engine sys)) as Hs.
    destruct (execute_begin rootDir src (engine sys)) as [[[ok|fl]|e] st];
      by eapply signal_armed_signals.
  - by apply interrupt_armed.
  - rewrite reset_spec. exact Harm.
  - pose proof (signals_outside _ _ (run_req_outside seg (engine sys))) as Hs.
    destruct (run (req rootDir) seg (engine sys)) as [r st]. by eapply signal_armed_signals.
  - destruct (inflight sys) as [fl|]; [|exact Harm].
    destruct (fl_race fl) as [r|]; [|exact Harm].
    pose proof (execute_resume_signals fl r (engine sys)) as Hs.
    destruct (execute_resume fl r (engine sys)) as [res st]. by eapply signal_armed_signals.
Qed.

Lemma reachable_armed evs sys :
  signal_armed (engine sys) -> signal_armed (engine (sys_run rootDir evs sys)).
Proof.
  revert sys. induction evs as [|ev evs IH]; intros sys Harm; [exact Harm|].
  rewrite sys_run_cons. apply IH. by apply sys_step_armed.
Qed.

(** ** The module cache *)

Lemma on_core_coherent : on_core (@cache_coherent Conv).
Proof.
  intros st st' Hc Hco. unfold cache_coherent, core in *.
  injection Hc as -> -> _ _ _. exact Hco.
Qed.

Lemma updateSideOutputs_coherent outs st :
  cache_coherent st -> cache_coherent (snd (updateSideOutputs outs st)).
Proof.
  intros Hco p m. rewrite updateSideOutputs_spec. simpl.
  destruct (decide (p ∈ map path outs)) as [Hin|Hout].
  - rewrite evicted_elem by exact Hin. discriminate.
  - rewrite evicted_other, recorded_other by exact Hout. apply Hco.
Qed.

Lemma sideOutputs_outside st st' :
  outside_realm st' = outside_realm st -> sideOutputs st' = sideOutputs st.
Proof. unfold outside_realm. congruence. Qed.

Lemma wrapRequire_coherent depth req' dirname args st :
  cache_coherent st -> cache_coherent (snd (wrapRequire depth req' dirname args st)).
Proof.
  revert req' dirname args st.
  induction depth as [|depth IH]; intros req' dirname args st Hco; [exact Hco|].
  destruct args as [|arg [|arg' args]];
    try (rewrite wrapRequire_other_arity by (simpl; lia); exact Hco).
  rewrite wrapRequire_order. destruct (arg =? "tslab"); [exact Hco|].
  rewrite requireFromSideOutputs_unfold. cbv zeta.
  set (filename := side_filename dirname arg).
  destruct (sideModules st !! filename) as [cached|].
  { destruct (truthy (mod_exports cached)); exact Hco. }
  destruct (sideOutputs st !! filename) as [content|] eqn:Hsrc; [|exact Hco].
  pose proof (run_maintains cache_coherent
                (wrapRequire depth (ModuleRequire filename) (path_dirname filename))
                (module_compile content filename) (on_core_blind _ on_core_coherent)
                (fun args s => IH _ _ args s) st Hco) as Hco1.
  pose proof (run_outside _ (module_compile content filename)
                (wrapRequire_outside depth (ModuleRequire filename) (path_dirname filename))
                st) as Hout1.
  destruct (run _ (module_compile content filename) st) as [[exps|e] st1]; simpl in *.
  2: exact Hco1.
  apply sideOutputs_outside in Hout1.
  assert (cache_coherent
            (set_sideModules
               (insert filename
                  (mkNodeModule filename (nodeModulePaths (path_dirname filename))
                     exps content)) st1)) as Hco2.
  { intros p m. simpl. destruct (decide (filename = p)) as [<-|Hne].
    - rewrite lookup_insert_eq. intros [= <-]. simpl. split; [reflexivity|]. congruence.
    - rewrite lookup_insert_ne by exact Hne. apply Hco1. }
  destruct (truthy exps); exact Hco2.
Qed.

Lemma run_req_coherent {R} (p : Prog R) st :
  cache_coherent st -> cache_coherent (snd (run (req rootDir) p st)).
Proof.
  apply run_maintains; [apply on_core_blind, on_core_coherent|].
  intros args s. apply wrapRequire_coherent.
Qed.

Lemma execute_begin_coherent src st :
  cache_coherent st -> cache_coherent (snd (execute_begin rootDir src st)).
Proof.
  apply (execute_begin_maintains cache_coherent src on_core_coherent).
  - intros outs s. apply updateSideOutputs_coherent.
  - intros args s. apply wrapRequire_coherent.
Qed.

Lemma sys_step_coherent ev sys :
  cache_coherent (engine sys) -> cache_coherent (engine (fst (sys_step rootDir ev sys))).
Proof.
  intros Hco. destruct ev; unfold sys_step.
  - pose proof (execute_begin_coherent src _ Hco) as Hco1.
    destruct (execute_begin rootDir src (engine sys)) as [[[ok|fl]|e] st]; exact Hco1.
  - rewrite interrupt_spec. exact Hco.
  - rewrite reset_spec. exact Hco.
  - pose proof (run_req_coherent seg _ Hco) as Hco1.
    destruct (run (req rootDir) seg (engine sys)) as [r st]. exact Hco1.
  - destruct (inflight sys) as [fl|]; [|exact Hco].
    destruct (fl_race fl) as [r|]; [|exact Hco].
    pose proof (execute_resume_maintains cache_coherent fl r on_core_coherent _ Hco) as Hco1.
    destruct (execute_resume fl r (engine sys)) as [res st]. exact Hco1.
Qed.

Lemma reachable_coherent evs sys :
  cache_coherent (engine sys) -> cache_coherent (engine (sys_run rootDir evs sys)).
Proof.
  revert sys. induction evs as [|ev evs IH]; intros sys Hco; [exact Hco|].
  rewrite sys_run_cons. apply IH. by apply sys_step_coherent.
Qed.

(** ** [reset] *)

(** C10: [reset] empties the export namespace and the declarations and
    leaves every other variable of the executor as it was: the sources and
    the compiled instances of the side modules, the console, the interrupt
    promise and the converters.  The prototype of the target of [exports]
    is left as it is, too. *)
Theorem reset_clears_locals_and_prevDecl st :
  reset st =
  (Ok tt,
   mkState (sideOutputs st) (sideModules st) ∅ (exports_proto st) "" (promises st)
     (interruptPromise st) (rejectInterruptPromise st) (console st)
     (node st) (browser st)).
Proof. apply reset_spec. Qed.

(** ** Diagnostics *)


(** ** Runtime failures *)

(** C1, as the code has it: when the body of a snippet throws while it is
    invoked, or when the completion that [execute] awaits is rejected,
    [execute] writes the error to [console.error] and returns [false]; the
    declarations stay as they were before the call. *)
Theorem runtime_failure_keeps_declarations src st converted :
  runs_body src st converted ->
  (forall e st2,
     run (req rootDir) (runInThisContext (wrapped converted))
       (after_convert converted src st) = (Thrown e, st2) ->
     console_returns (console st) [CError [e]] ->
     exists st',
       execute_begin rootDir src st = (Ok (Finished false), st') /\
       console st' = console st ++ [CError [e]] /\
       prevDecl st' = prevDecl st) /\
  (forall fl st1 evs e,
     execute_begin rootDir src st = (Ok (Awaiting fl), st1) ->
     Forall quiet evs ->
     inflight (sys_run rootDir evs (mkSystem st1 (Some fl))) ≫= fl_race = Some (Thrown e) ->
     console_returns (console st) [CError [e]] ->
     exists st',
       sys_step rootDir EvResume (sys_run rootDir evs (mkSystem st1 (Some fl)))
         = (mkSystem st' None, Some (Ok false)) /\
       console st' = console st ++ [CError [e]] /\
       prevDecl st' = prevDecl st).
Proof.
  intros (Hc & Hd & Ho). split.
  - intros e st2 Hrun Hret. rewrite (execute_begin_converts src st converted Hc). cbv zeta.
    rewrite Hd, Ho, Hrun. simpl.
    pose proof (run_req_outside (runInThisContext (wrapped converted))
                  (after_convert converted src st)) as Hout.
    rewrite Hrun in Hout. unfold outside_realm in Hout. simpl in Hout.
    injection Hout as _ Hprev _ _ _ Hcon _ _.
    destruct Hret as [Hret _]. rewrite Hcon, Hret.
    eexists. split; [reflexivity|]. simpl. split; congruence.
  - intros fl st1 evs e Hbegin Hq Hrace Hret.
    destruct (execute_begin_awaiting src st fl st1 Hbegin)
      as (converted' & r & (Hc' & _) & _ & Hrun & _ & _).
    assert (converted' = converted) as -> by (destruct Hc, Hc'; congruence).
    pose proof (run_req_outside (runInThisContext (wrapped converted))
                  (after_convert converted src st)) as Hout.
    rewrite Hrun in Hout. unfold outside_realm in Hout. simpl in Hout.
    injection Hout as _ Hprev _ _ _ Hcon _ _.
    destruct (quiet_run evs (mkSystem st1 (Some fl)) fl Hq eq_refl)
      as (fl' & Hfl' & _ & Hcon' & Hprev').
    unfold sys_step. rewrite Hfl' in *. simpl in Hrace. rewrite Hrace. simpl.
    unfold console_error, console_call, bind, ret. simpl in Hcon', Hprev'.
    destruct Hret as [Hret _]. rewrite Hcon', Hcon, Hret.
    eexists. split; [reflexivity|]. simpl. split; congruence.
Qed.

(** ** The trailing expression *)

Lemma after_finish_displayed converted name st :
  lastExpressionVar converted = Some name ->
  name <> "" ->
  displayed name st (after_finish converted st).
Proof.
  intros Hlast Hname. unfold after_finish, displayed. rewrite Hlast. simpl.
  apply String.eqb_neq in Hname. rewrite Hname. simpl.
  destruct (not_nullish _); simpl; split; intros; try discriminate; by split.
Qed.

(** C5, as the code has it: after a successful run of a snippet whose
    compilation names a (non-empty) trailing-expression binding, [execute]
    reads the binding from the export namespace.  If the value is neither
    [null] nor [undefined], the binding is removed and the value is written
    once with [console.log]; otherwise the namespace and the console are
    left as they are.  This holds for a run that ends without an [await]
    and for one that is resumed after its awaited completion is
    fulfilled. *)
Theorem trailing_expression_displayed converted name :
  lastExpressionVar converted = Some name ->
  name <> "" ->
  (forall src st r st2,
     runs_body src st converted ->
     run (req rootDir) (runInThisContext (wrapped converted)) (after_convert converted src st)
       = (Ok r, st2) ->
     hasToplevelAwait converted && truthy_ret r = false ->
     console_returns (console st2) (trailing converted st2) ->
     exists st',
       execute_begin rootDir src st = (Ok (Finished true), st') /\
       displayed name st2 st') /\
  (forall fl r st2,
     fl_converted fl = converted ->
     console_returns (console st2) (trailing converted st2) ->
     exists st',
       execute_resume fl (Ok r) st2 = (Ok true, st') /\
       displayed name st2 st').
Proof.
  intros Hlast Hname. split.
  - intros src st r st2 (Hc & Hd & Ho) Hrun Hsync Hret.
    rewrite (execute_begin_converts src st converted Hc). cbv zeta.
    rewrite Hd, Ho, Hrun, Hsync. simpl.
    rewrite execute_finish_spec by exact Hret.
    eexists. split; [reflexivity|]. by apply after_finish_displayed.
  - intros fl r st2 Hfl Hret. simpl. rewrite Hfl.
    rewrite execute_finish_spec by exact Hret.
    eexists. split; [reflexivity|]. by apply after_finish_displayed.
Qed.

(** ** Faults and [execute] *)



(** ** Interruption *)

(** C8: in every executor reached from [createExecutor] exactly one
    interrupt promise is pending, the one both variables of the closure
    designate, and every promise has a handler, so that no rejection is
    unhandled.  In such an executor [interrupt] never throws.  It rejects
    the promise that was armed and arms a fresh one, which is again the only
    pending one.  Nothing else in the executor changes, and with no
    [execute] suspended nothing is settled.  An [execute] that starts
    afterwards races against the fresh promise, which the earlier call did
    not reject. *)
Theorem interrupt_rearms :
  (forall evs n b,
     signal_armed (engine (sys_run rootDir evs (mkSystem (createExecutor n b) None)))) /\
  forall st,
  signal_armed st ->
  exists st',
    interrupt st = (Ok tt, st') /\
    signal_armed st' /\
    promises st !! interruptPromise st' = None /\
    promises st' !! interruptPromise st' = Some (mkPromiseCell None true) /\
    promises st' !! interruptPromise st
      = Some (mkPromiseCell (Some (Thrown interrupted)) true) /\
    (sideOutputs st', sideModules st', exports st', exports_proto st', prevDecl st',
     console st', node st', browser st')
      = (sideOutputs st, sideModules st, exports st, exports_proto st, prevDecl st,
         console st, node st, browser st) /\
    sys_step rootDir EvInterrupt (mkSystem st None) = (mkSystem st' None, None) /\
    (forall src fl st2,
       execute_begin rootDir src st' = (Ok (Awaiting fl), st2) ->
       fl_signal fl = interruptPromise st' /\
       is_pending (fl_signal fl) (promises st2) = true).
Proof.
  split; [intros evs n b; apply reachable_armed, createExecutor_armed|].
  intros st Harm. pose proof (interrupt_armed st Harm) as Harm'.
  destruct Harm as (Hsame & Hone & Hh).
  assert (is_pending (interruptPromise st) (promises st) = true) as Hpend by by apply Hone.
  unfold is_pending in Hpend.
  destruct (promises st !! interruptPromise st) as [cell|] eqn:Hcell; [|discriminate].
  destruct (settled cell) eqn:Hs; [discriminate|]. clear Hpend.
  pose proof (Hh _ _ Hcell) as Hhandled.
  pose proof (interrupt_spec st) as Hspec.
  destruct (interrupt st) as [res st'] eqn:Hint. injection Hspec as -> Hst'.
  simpl in Harm'. exists st'. split; [reflexivity|]. split; [exact Harm'|].
  split; [rewrite Hst'; simpl; by apply lookup_ge_None_2|].
  split.
  { rewrite Hst'. simpl.
    by rewrite list_lookup_middle by (by rewrite length_reject_promise). }
  split.
  { rewrite Hst'. simpl. rewrite lookup_app_l
      by (rewrite length_reject_promise; by eapply lookup_lt_Some).
    unfold reject_promise. rewrite Hsame, Hcell, Hs.
    rewrite list_lookup_insert_eq by (by eapply lookup_lt_Some).
    by rewrite Hhandled. }
  split; [by rewrite Hst'|].
  split; [unfold sys_step; cbn [engine inflight]; by rewrite Hint|].
  intros src fl st2 Hbegin.
  destruct (execute_begin_awaiting src _ fl st2 Hbegin)
    as (converted & r & _ & _ & Hrun & _ & ->).
  pose proof (run_req_outside (runInThisContext (wrapped converted))
                (after_convert converted src st')) as Hout.
  rewrite Hrun in Hout. unfold outside_realm in Hout. simpl in Hout.
  injection Hout as _ _ Hp Hi _ _ _ _. simpl. rewrite Hi, Hp.
  split; [reflexivity|].
  destruct Harm' as (_ & Hone' & _). by apply Hone'.
Qed.


(** ** The module cache and its sources *)

(** X18: [updateSideOutputs] records, for every path, the text that the
    list has last for it, and drops the compiled instance of every path in
    the list; other paths keep their text and their instance.  An import
    through the wrapped [require] of a path that has a text and no instance
    compiles that text and caches the instance; so the first import after a
    text was recorded compiles the text recorded last.  An import of a path
    with a cached instance compiles nothing and changes nothing, any number
    of times.  In both cases the exports of the instance are what the
    import returns when they are truthy; falsy exports send the call on to
    the underlying [require].  In every executor reached from
    [createExecutor], a cached instance was compiled from the text that is
    recorded for its path now. *)
Theorem module_cache_follows_source :
  (forall outs st p,
     sideOutputs (snd (updateSideOutputs outs st)) !! p
       = (if last_text p outs is Some text then Some text else sideOutputs st !! p) /\
     sideModules (snd (updateSideOutputs outs st)) !! p
       = (if decide (p ∈ map path outs) then None else sideModules st !! p)) /\
  (forall depth req' dirname arg st content,
     arg <> "tslab" ->
     sideModules st !! side_filename dirname arg = None ->
     sideOutputs st !! side_filename dirname arg = Some content ->
     let filename := side_filename dirname arg in
     wrapRequire (S depth) req' dirname [arg] st =
     match run (wrapRequire depth (ModuleRequire filename) (path_dirname filename))
             (module_compile content filename) st with
     | (Ok exps, st1) =>
         let st2 :=
           set_sideModules
             (insert filename
                (mkNodeModule filename (nodeModulePaths (path_dirname filename))
                   exps content)) st1 in
         if truthy exps then (Ok exps, st2) else (host_apply req' [arg], st2)
     | (Thrown e, st1) => (Thrown e, st1)
     end) /\
  (forall outs st depth req' dirname arg text,
     arg <> "tslab" ->
     last_text (side_filename dirname arg) outs = Some text ->
     let filename := side_filename dirname arg in
     let st0 := snd (updateSideOutputs outs st) in
     sideModules st0 !! filename = None /\
     sideOutputs st0 !! filename = Some text /\
     fst (wrapRequire (S depth) req' dirname [arg] st0) =
     match fst (run (wrapRequire depth (ModuleRequire filename) (path_dirname filename))
                  (module_compile text filename) st0) with
     | Ok exps => if truthy exps then Ok exps else host_apply req' [arg]
     | Thrown e => Thrown e
     end) /\
  (forall depth req' dirname arg st cached,
     arg <> "tslab" ->
     sideModules st !! side_filename dirname arg = Some cached ->
     wrapRequire (S depth) req' dirname [arg] st =
       (if truthy (mod_exports cached) then Ok (mod_exports cached)
        else host_apply req' [arg], st) /\
     forall n,
       Nat.iter n (fun s => snd (wrapRequire (S depth) req' dirname [arg] s)) st = st) /\
  (forall evs n b,
     cache_coherent (engine (sys_run rootDir evs (mkSystem (createExecutor n b) None)))).
Proof.
  assert (forall depth req' dirname arg st content,
     arg <> "tslab" ->
     sideModules st !! side_filename dirname arg = None ->
     sideOutputs st !! side_filename dirname arg = Some content ->
     let filename := side_filename dirname arg in
     wrapRequire (S depth) req' dirname [arg] st =
     match run (wrapRequire depth (ModuleRequire filename) (path_dirname filename))
             (module_compile content filename) st with
     | (Ok exps, st1) =>
         let st2 :=
           set_sideModules
             (insert filename
                (mkNodeModule filename (nodeModulePaths (path_dirname filename))
                   exps content)) st1 in
         if truthy exps then (Ok exps, st2) else (host_apply req' [arg], st2)
     | (Thrown e, st1) => (Thrown e, st1)
     end) as Hnext.
  { intros depth req' dirname arg st content Harg Hmiss Hsrc filename.
    apply String.eqb_neq in Harg.
    rewrite wrapRequire_order, Harg, requireFromSideOutputs_unfold. cbv zeta.
    fold filename. unfold filename at 1 2. rewrite Hmiss, Hsrc.
    destruct (run _ _ st) as [[exps|e] st1]; [|reflexivity].
    destruct (truthy exps); reflexivity. }
  assert (forall outs st p,
     sideOutputs (snd (updateSideOutputs outs st)) !! p
       = (if last_text p outs is Some text then Some text else sideOutputs st !! p) /\
     sideModules (snd (updateSideOutputs outs st)) !! p
       = (if decide (p ∈ map path outs) then None else sideModules st !! p)) as Hrecord.
  { intros outs st p. rewrite updateSideOutputs_spec. simpl.
    split; [apply recorded_lookup|apply evicted_lookup]. }
  split; [exact Hrecord|]. split; [exact Hnext|]. split; [|split].
  - intros outs st depth req' dirname arg text Harg Hlast filename st0.
    destruct (Hrecord outs st filename) as [Hso Hsm]. fold st0 in Hso, Hsm.
    unfold filename in Hso at 2. rewrite Hlast in Hso.
    assert (filename ∈ map path outs) as Hin.
    { unfold last_text in Hlast. fold filename in Hlast.
      destruct (last (filter (fun out => path out = filename) outs)) as [out|] eqn:Hl;
        [|discriminate].
      apply last_Some_elem_of, list_elem_of_filter in Hl as [<- Hl].
      apply list_elem_of_fmap. by exists out. }
    rewrite decide_True in Hsm by exact Hin.
    split; [exact Hsm|]. split; [exact Hso|].
    rewrite (Hnext depth req' dirname arg st0 text Harg Hsm Hso). cbv zeta.
    fold filename. destruct (run _ _ st0) as [[exps|e] st1]; [|reflexivity].
    simpl. destruct (truthy exps); reflexivity.
  - intros depth req' dirname arg st cached Harg Hcache.
    assert (wrapRequire (S depth) req' dirname [arg] st =
            (if truthy (mod_exports cached) then Ok (mod_exports cached)
             else host_apply req' [arg], st)) as Hreuse.
    { apply String.eqb_neq in Harg.
      rewrite wrapRequire_order, Harg, requireFromSideOutputs_unfold. cbv zeta.
      rewrite Hcache. destruct (truthy _); reflexivity. }
    split; [exact Hreuse|].
    induction n as [|n IH]; [reflexivity|]. rewrite Nat.iter_succ, IH, Hreuse. reflexivity.
  - intros evs n b. apply reachable_coherent. intros p m. simpl.
    rewrite lookup_empty. discriminate.
Qed.

End Properties.

(** * Further properties of the executor *)

Section FurtherProperties.

Context {Conv : Type} `{!Converter Conv} `{!Host}.
Variable rootDir : string.

Implicit Types (st : @State Conv) (e v : Value) (name prop src : string).

Ltac munfold :=
  unfold bind, ret, throw, gets, modify, lift, try_catch, console_error,
    console_log, console_call, exports_get, exports_delete, run_call in *.

(** ** Snippets that are not converted *)

(** X1: a snippet that declares a module is registered with the converter
    of its mode and [execute] returns [true], also when the registration
    reports diagnostics, which are printed.  Nothing is converted or run:
    the other converter, the declarations, the exports and the module cache
    are as before.  A snippet for the browser that declares no module is
    skipped: [execute] returns [true] and changes nothing. *)
Theorem unconverted_snippets src st meta :
  getCodeMetadata src = Ok meta ->
  (forall name diags,
     module meta = Some name -> name <> "" ->
     match mode meta with
     | ModeNode =>
         let registered := addModule (node st) name src meta in
         fst registered = Ok diags ->
         console_returns (console st) (map diagnostic_call diags) ->
         execute_begin rootDir src st =
         (Ok (Finished true),
          mkState (sideOutputs st) (sideModules st) (exports st) (exports_proto st)
            (prevDecl st) (promises st) (interruptPromise st) (rejectInterruptPromise st)
            (console st ++ map diagnostic_call diags)
            (snd registered) (browser st))
     | ModeBrowser =>
         let registered := addModule (browser st) name src meta in
         fst registered = Ok diags ->
         console_returns (console st) (map diagnostic_call diags) ->
         execute_begin rootDir src st =
         (Ok (Finished true),
          mkState (sideOutputs st) (sideModules st) (exports st) (exports_proto st)
            (prevDecl st) (promises st) (interruptPromise st) (rejectInterruptPromise st)
            (console st ++ map diagnostic_call diags)
            (node st) (snd registered))
     end) /\
  (truthy_str (module meta) = false ->
   mode meta = ModeBrowser ->
   execute_begin rootDir src st = (Ok (Finished true), st)).
Proof.
  intros Hmeta. split.
  - intros name diags Hmod Hname.
    assert (truthy_str (module meta) = true) as Htruthy.
    { rewrite Hmod. simpl. apply String.eqb_neq in Hname. by rewrite Hname. }
    rewrite (execute_begin_module rootDir src st meta Hmeta Htruthy). cbv zeta.
    rewrite Hmod. simpl default.
    destruct (mode meta); intros Hreg Hret; rewrite Hreg;
      rewrite printDiagnostics_spec by exact Hret; reflexivity.
  - intros Hmod Hmode. by apply (execute_begin_browser rootDir src st meta).
Qed.

(** ** The declarations *)

(** X2: a snippet that compiles to declarations only (no diagnostic, no
    body) succeeds without running anything: the declarations become the
    declaration output of the converter, or the empty text when there is
    none, the exports and the console are as before, and the side outputs
    are recorded as for any other snippet. *)
Theorem declarations_only_snippet src st converted :
  converts src st converted ->
  diagnostics converted = [] ->
  truthy_str (output converted) = false ->
  exists st',
    execute_begin rootDir src st = (Ok (Finished true), st') /\
    prevDecl st' = default "" (declOutput converted) /\
    exports st' = exports st /\
    exports_proto st' = exports_proto st /\
    console st' = console st /\
    sideOutputs st' = recorded (default [] (cr_sideOutputs converted)) (sideOutputs st) /\
    sideModules st' = evicted (default [] (cr_sideOutputs converted)) (sideModules st) /\
    signals st' = signals st.
Proof.
  intros Hc Hd Ho. rewrite (execute_begin_converts rootDir src st converted Hc). cbv zeta.
  rewrite Hd, Ho. simpl. eexists. split; [reflexivity|]. by repeat split.
Qed.

Lemma converts_unique src st converted converted' :
  converts src st converted -> converts src st converted' -> converted' = converted.
Proof. intros [_ H1] [_ H2]. congruence. Qed.

Lemma printDiagnostics_prevDecl diags st :
  prevDecl (snd (printDiagnostics diags st)) = prevDecl st.
Proof. destruct (printDiagnostics_state diags st) as (calls & -> & _). reflexivity. Qed.

Lemma after_finish_prevDecl converted st :
  prevDecl (after_finish converted st) = default "" (declOutput converted).
Proof.
  unfold after_finish. cbv zeta.
  destruct (truthy_str _); [|reflexivity]. destruct (not_nullish _); reflexivity.
Qed.

Lemma after_finish_console converted st :
  console (after_finish converted st) = console st ++ trailing converted st.
Proof.
  unfold after_finish, trailing. cbv zeta.
  destruct (truthy_str _); [|by rewrite app_nil_r].
  destruct (not_nullish _); [reflexivity|by rewrite app_nil_r].
Qed.

Lemma execute_begin_prevDecl src st status st' :
  execute_begin rootDir src st = (Ok status, st') ->
  (forall converted,
     converts src st converted -> status = Finished true ->
     prevDecl st' = default "" (declOutput converted)) /\
  ((forall converted, ~ converts src st converted) \/ status <> Finished true ->
   prevDecl st' = prevDecl st).
Proof.
  intros Hrun.
  destruct (classified src)
    as [(e & He)|[(meta & Hm & Hmod)|[(meta & Hm & Hmod & Hmode)|Hc]]].
  - rewrite (execute_begin_unclassified rootDir src st e He) in Hrun. discriminate.
  - assert (prevDecl st' = prevDecl st) as Hsame.
    { rewrite (execute_begin_module rootDir src st meta Hm Hmod) in Hrun. cbv zeta in Hrun.
      destruct (fst _) as [diags|e]; [|discriminate].
      match type of Hrun with
      | context [printDiagnostics ?d ?s] =>
          pose proof (printDiagnostics_prevDecl d s) as Hp;
          destruct (printDiagnostics d s) as [[[]|e] st2]; [|discriminate]
      end.
      injection Hrun as _ <-. simpl in Hp. rewrite Hp. by destruct (mode meta). }
    split; [|by intros _].
    intros converted [(meta' & Hm' & Hmod' & _) _]. congruence.
  - rewrite (execute_begin_browser rootDir src st meta Hm Hmod Hmode) in Hrun.
    injection Hrun as _ <-. split; [|by intros _].
    intros converted [(meta' & Hm' & _ & Hmode') _]. congruence.
  - destruct (fst (convert (node st) (prevDecl st) src)) as [converted|e] eqn:Hconv.
    2: { rewrite (execute_begin_unconverted rootDir src st e Hc Hconv) in Hrun.
         discriminate. }
    assert (converts src st converted) as Hcv by (by split).
    assert ((status = Finished true ->
             prevDecl st' = default "" (declOutput converted)) /\
            (status <> Finished true -> prevDecl st' = prevDecl st)) as [Hyes Hno].
    { rewrite (execute_begin_converts rootDir src st converted Hcv) in Hrun.
      cbv zeta in Hrun.
      destruct (0 <? _)%nat.
      { pose proof (printDiagnostics_prevDecl (diagnostics converted)
                      (after_convert converted src st)) as Hp.
        destruct (printDiagnostics _ _) as [[[]|e] st2]; [|discriminate].
        injection Hrun as <- <-. split; [discriminate|]. intros _. exact Hp. }
      destruct (negb _).
      { injection Hrun as <- <-. split; [reflexivity|]. intros Hne. by destruct Hne. }
      pose proof (run_req_outside rootDir (runInThisContext (wrapped converted))
                    (after_convert converted src st)) as Hout.
      destruct (run _ _ _) as [[r|e] st2]; simpl in Hout; unfold outside_realm in Hout.
      - destruct (_ && _).
        + injection Hrun as <- <-. split; [discriminate|]. intros _.
          simpl in Hout. congruence.
        + pose proof (execute_finish_state converted st2) as Hst.
          destruct (execute_finish converted st2) as [[b|e] st3] eqn:Hfin; [|discriminate].
          injection Hrun as <- <-. simpl in Hst. subst st3.
          assert (b = true) as ->.
          { destruct (execute_finish_result converted st2) as [Hok|(c & e & _ & _ & He)];
              rewrite Hfin in *; simpl in *; congruence. }
          split; [intros _; apply after_finish_prevDecl|]. intros Hne. by destruct Hne.
      - destruct (console_error [e] st2) as [[[]|e'] st3] eqn:Hce; [|discriminate].
        injection Hrun as <- <-. split; [discriminate|]. intros _.
        assert (st3 = snd (console_error [e] st2)) as -> by (by rewrite Hce).
        simpl in *. congruence. }
    split.
    + intros converted' Hcv' Hs. rewrite (converts_unique _ _ _ _ Hcv Hcv'). by apply Hyes.
    + intros [Hnone|Hs]; [by destruct (Hnone converted)|by apply Hno].
Qed.

Lemma execute_resume_prevDecl (fl : InFlight) (r : Result Value) st :
  prevDecl (snd (execute_resume fl r st)) =
  if r is Ok _ then default "" (declOutput (fl_converted fl)) else prevDecl st.
Proof.
  destruct r as [v|e]; simpl.
  - rewrite execute_finish_state. apply after_finish_prevDecl.
  - unfold console_error, console_call, bind, ret.
    destruct (console_reply _ _) as [[]|e']; reflexivity.
Qed.


(** ** The [await] *)

(** X4: when the body of a snippet with a top-level await returns a promise
    (or any truthy value), [execute] always suspends, even if the promise
    is settled already: up to the [await] it has written nothing to the
    console and has not touched the declarations, and it races against the
    interrupt promise that is armed at the call. *)
Theorem await_defers_reporting src st converted r st1 :
  runs_body src st converted ->
  hasToplevelAwait converted = true ->
  run (req rootDir) (runInThisContext (wrapped converted))
    (after_convert converted src st) = (Ok r, st1) ->
  truthy_ret r = true ->
  execute_begin rootDir src st =
    (Ok (Awaiting (mkInFlight converted (interruptPromise st)
                     (race r (promises st !! interruptPromise st)))), st1) /\
  console st1 = console st /\
  prevDecl st1 = prevDecl st.
Proof.
  intros (Hc & Hd & Ho) Hawait Hrun Hr.
  pose proof (run_req_outside rootDir (runInThisContext (wrapped converted))
                (after_convert converted src st)) as Hout.
  rewrite Hrun in Hout. unfold outside_realm in Hout. simpl in Hout.
  injection Hout as _ Hprev Hproms Hint _ Hcon _ _.
  rewrite (execute_begin_converts rootDir src st converted Hc). cbv zeta.
  rewrite Hd, Ho, Hrun, Hawait, Hr. simpl. rewrite Hint, Hproms. by repeat split.
Qed.

(** X5: once the awaited completion is fulfilled, [interrupt] comes too
    late: whatever the body does and however often [interrupt] is called
    before the continuation of [execute] runs, [execute] returns [true] and
    ends like a run without an [await]: it takes over the declaration
    output and writes the value of the trailing expression, if there is
    one, and nothing else, no error in particular. *)
Theorem fulfilled_await_ignores_interrupt src st fl st1 before after v :
  execute_begin rootDir src st = (Ok (Awaiting fl), st1) ->
  Forall quiet before ->
  inflight (sys_run rootDir before (mkSystem st1 (Some fl))) ≫= fl_race = Some (Ok v) ->
  Forall quiet after ->
  let sys2 := sys_run rootDir (before ++ after) (mkSystem st1 (Some fl)) in
  console_returns (console st) (trailing (fl_converted fl) (engine sys2)) ->
  runs_body src st (fl_converted fl) /\
  sys_step rootDir EvResume sys2
    = (mkSystem (after_finish (fl_converted fl) (engine sys2)) None, Some (Ok true)) /\
  prevDecl (after_finish (fl_converted fl) (engine sys2))
    = default "" (declOutput (fl_converted fl)) /\
  console (after_finish (fl_converted fl) (engine sys2))
    = console st ++ trailing (fl_converted fl) (engine sys2).
Proof.
  intros Hbegin Hbefore Hrace Hafter sys2 Hret.
  destruct (execute_begin_awaiting rootDir src st fl st1 Hbegin)
    as (converted & r & Hruns & _ & Hrun & _ & Hfl).
  pose proof (run_req_outside rootDir (runInThisContext (wrapped converted))
                (after_convert converted src st)) as Hout.
  rewrite Hrun in Hout. unfold outside_realm in Hout. simpl in Hout.
  injection Hout as _ _ _ _ _ Hcon _ _.
  destruct (quiet_run rootDir before (mkSystem st1 (Some fl)) fl Hbefore eq_refl)
    as (fl1 & Hfl1 & (Hconv1 & _ & _) & Hcon1 & _).
  rewrite Hfl1 in Hrace. simpl in Hrace.
  destruct (quiet_run rootDir after _ fl1 Hafter Hfl1)
    as (fl2 & Hfl2 & (Hconv2 & _ & Hkept) & Hcon2 & _).
  rewrite <- sys_run_app in Hfl2, Hcon2. fold sys2 in Hfl2, Hcon2.
  assert (console (engine sys2) = console st) as Hc2.
  { rewrite Hcon2. simpl in Hcon1. congruence. }
  assert (fl_converted fl2 = fl_converted fl) as Hconv by congruence.
  assert (fl_converted fl = converted) as Hfc by (by rewrite Hfl).
  split; [by rewrite Hfc|]. split; [|split].
  - unfold sys_step. rewrite Hfl2, (Hkept _ Hrace). simpl. rewrite Hconv.
    rewrite execute_finish_spec by (by rewrite Hc2). reflexivity.
  - apply after_finish_prevDecl.
  - rewrite after_finish_console, Hc2. reflexivity.
Qed.

(** X6: without a top-level await [execute] does not look at what the body
    evaluates to: a promise it returns, even a rejected one, is not awaited
    and not reported.  [execute] returns [true] at once, takes over the
    declaration output, and writes the value of the trailing expression, if
    there is one, and nothing else. *)
Theorem unawaited_result_is_ignored src st converted r st2 :
  runs_body src st converted ->
  hasToplevelAwait converted = false ->
  run (req rootDir) (runInThisContext (wrapped converted))
    (after_convert converted src st) = (Ok r, st2) ->
  console_returns (console st) (trailing converted st2) ->
  execute_begin rootDir src st = (Ok (Finished true), after_finish converted st2) /\
  prevDecl (after_finish converted st2) = default "" (declOutput converted) /\
  console (after_finish converted st2) = console st ++ trailing converted st2.
Proof.
  intros (Hc & Hd & Ho) Hawait Hrun Hret.
  pose proof (run_req_outside rootDir (runInThisContext (wrapped converted))
                (after_convert converted src st)) as Hout.
  rewrite Hrun in Hout. unfold outside_realm in Hout. simpl in Hout.
  injection Hout as _ _ _ _ _ Hcon _ _.
  rewrite (execute_begin_converts rootDir src st converted Hc). cbv zeta.
  rewrite Hd, Ho, Hrun, Hawait. simpl.
  rewrite execute_finish_spec by (by rewrite Hcon).
  split; [reflexivity|]. split; [apply after_finish_prevDecl|].
  rewrite after_finish_console, Hcon. reflexivity.
Qed.

(** ** Resolution of a specifier *)

(** X7: a specifier for which no side module is cached or recorded goes to
    the underlying [require], with the same arguments, and the executor is
    not touched; so does every call with no argument or with more than
    one, ['tslab'] included. *)
Theorem unknown_specifier_goes_to_host depth req' dirname st :
  (forall arg,
     arg <> "tslab" ->
     sideModules st !! side_filename dirname arg = None ->
     sideOutputs st !! side_filename dirname arg = None ->
     wrapRequire (S depth) req' dirname [arg] st = (host_apply req' [arg], st)) /\
  (forall args,
     length args <> 1 ->
     wrapRequire (S depth) req' dirname args st = (host_apply req' args, st)).
Proof.
  split.
  - intros arg Harg Hcache Hsrc. rewrite wrapRequire_order.
    apply String.eqb_neq in Harg. rewrite Harg.
    rewrite requireFromSideOutputs_unfold. cbv zeta. rewrite Hcache, Hsrc. reflexivity.
  - intros args Hlen. by apply wrapRequire_other_arity.
Qed.

(** X8: ['tslab'] never reaches the side modules or the underlying
    [require]: the call returns the executor's own interface and changes
    nothing.  A cached side module with truthy exports hides whatever the
    underlying [require] would find for the specifier: its exports are
    returned and nothing changes. *)
Theorem side_modules_shadow_host depth req' dirname st :
  wrapRequire (S depth) req' dirname ["tslab"] st = (Ok tslab, st) /\
  (forall arg cached,
     arg <> "tslab" ->
     sideModules st !! side_filename dirname arg = Some cached ->
     truthy (mod_exports cached) = true ->
     wrapRequire (S depth) req' dirname [arg] st = (Ok (mod_exports cached), st)).
Proof.
  split; [reflexivity|].
  intros arg cached Harg Hcache Htruthy. rewrite wrapRequire_order.
  apply String.eqb_neq in Harg. rewrite Harg.
  rewrite requireFromSideOutputs_unfold. cbv zeta. rewrite Hcache, Htruthy. reflexivity.
Qed.

(** X9: a side module is cached only after its code has run, so a side
    module whose code starts by importing itself never loads: every import
    of it ends with the error of an exhausted stack, and neither the cache
    nor anything else has changed. *)
Theorem self_import_exhausts_stack filename content id k :
  module_compile content filename = CallRequire [id] k ->
  (forall e, k (Thrown e) = Ret (Thrown e)) ->
  id <> "tslab" ->
  side_filename (path_dirname filename) id = filename ->
  forall depth req' dirname arg st,
    arg <> "tslab" ->
    side_filename dirname arg = filename ->
    sideOutputs st !! filename = Some content ->
    sideModules st !! filename = None ->
    wrapRequire depth req' dirname [arg] st = (Thrown rangeError, st).
Proof.
  intros Hcode Hk Hid Hself depth.
  induction depth as [|depth IH]; intros req' dirname arg st Harg Hfile Hsrc Hcache;
    [reflexivity|].
  rewrite wrapRequire_order. apply String.eqb_neq in Harg. rewrite Harg.
  rewrite requireFromSideOutputs_unfold. cbv zeta. rewrite Hfile, Hcache, Hsrc.
  rewrite Hcode. simpl.
  rewrite (IH (ModuleRequire filename) (path_dirname filename) id st Hid Hself Hsrc Hcache).
  rewrite Hk. reflexivity.
Qed.

(** X10: a side module can import a side module.  When the code of [a]
    requires [b] from its own directory, and [b] is recorded, not cached,
    requires nothing and has truthy exports, then importing [a] compiles
    both, hands the exports of [b] to [a], and leaves both instances in the
    cache. *)
Theorem side_module_imports_side_module depth req' dirname arg st a b id k
    content_a content_b exports_a exports_b :
  arg <> "tslab" -> id <> "tslab" ->
  side_filename dirname arg = a ->
  side_filename (path_dirname a) id = b ->
  a <> b ->
  sideModules st !! a = None -> sideModules st !! b = None ->
  sideOutputs st !! a = Some content_a -> sideOutputs st !! b = Some content_b ->
  module_compile content_a a = CallRequire [id] k ->
  k (Ok exports_b) = Ret (Ok exports_a) ->
  module_compile content_b b = Ret (Ok exports_b) ->
  truthy exports_a = true -> truthy exports_b = true ->
  wrapRequire (S (S depth)) req' dirname [arg] st =
  (Ok exports_a,
   set_sideModules
     (fun cache =>
        <[a := mkNodeModule a (nodeModulePaths (path_dirname a)) exports_a content_a]>
          (<[b := mkNodeModule b (nodeModulePaths (path_dirname b)) exports_b content_b]>
             cache)) st).
Proof.
  intros Harg Hid Ha Hb Hab Hca Hcb Hsa Hsb Hcode_a Hk Hcode_b Hta Htb.
  apply String.eqb_neq in Harg. apply String.eqb_neq in Hid.
  rewrite wrapRequire_order, Harg, requireFromSideOutputs_unfold. cbv zeta.
  rewrite Ha, Hca, Hsa, Hcode_a.
  cbn [run]. rewrite wrapRequire_order, Hid, requireFromSideOutputs_unfold. cbv zeta.
  rewrite Hb, Hcb, Hsb, Hcode_b. cbn [run]. rewrite Htb, Hk. cbn [run].
  rewrite Hta. reflexivity.
Qed.

(** X17: what a side module requires and the side modules do not have goes
    to the [require] of that module, not to the one of the importer: when
    the code of [a] requires such a specifier and then yields truthy
    exports, importing [a] gives these exports and caches [a]. *)
Theorem side_module_reaches_its_own_require depth req' dirname arg st a id k
    content exports_a :
  arg <> "tslab" -> id <> "tslab" ->
  side_filename dirname arg = a ->
  sideModules st !! a = None ->
  sideOutputs st !! a = Some content ->
  sideModules st !! side_filename (path_dirname a) id = None ->
  sideOutputs st !! side_filename (path_dirname a) id = None ->
  module_compile content a = CallRequire [id] k ->
  k (host_apply (ModuleRequire a) [id]) = Ret (Ok exports_a) ->
  truthy exports_a = true ->
  wrapRequire (S (S depth)) req' dirname [arg] st =
  (Ok exports_a,
   set_sideModules
     (insert a (mkNodeModule a (nodeModulePaths (path_dirname a)) exports_a content)) st).
Proof.
  intros Harg Hid Ha Hca Hsa Hci Hsi Hcode Hk Ht.
  apply String.eqb_neq in Harg. apply String.eqb_neq in Hid.
  rewrite wrapRequire_order, Harg, requireFromSideOutputs_unfold. cbv zeta.
  rewrite Ha, Hca, Hsa, Hcode.
  cbn [run]. rewrite wrapRequire_order, Hid, requireFromSideOutputs_unfold. cbv zeta.
  rewrite Hci, Hsi. cbn [truthy]. rewrite Hk. cbn [run]. rewrite Ht. reflexivity.
Qed.


(** ** The recorded sources *)

Lemma recorded_same_paths outs so so' p :
  p ∈ map path outs -> recorded outs so !! p = recorded outs so' !! p.
Proof.
  revert so so'. induction outs as [|out outs IH]; intros so so' Hin; simpl in *.
  - by apply elem_of_nil in Hin.
  - destruct (decide (p ∈ map path outs)) as [Hin'|Hout]; [by apply IH|].
    apply elem_of_cons in Hin as [->|Hin]; [|contradiction].
    unfold recorded in *. simpl.
    pose proof (recorded_other outs (path out) (<[path out:=data out]> so) Hout) as H1.
    pose proof (recorded_other outs (path out) (<[path out:=data out]> so') Hout) as H2.
    unfold recorded in H1, H2. rewrite H1, H2, !lookup_insert_eq. reflexivity.
Qed.

Lemma recorded_keeps outs so p :
  is_Some (so !! p) -> is_Some (recorded outs so !! p).
Proof.
  revert so. induction outs as [|out outs IH]; intros so Hp; [exact Hp|].
  apply IH. destruct (decide (path out = p)) as [->|Hne].
  - rewrite lookup_insert_eq. by eexists.
  - by rewrite lookup_insert_ne.
Qed.


(** X11: the source text recorded for a path is never dropped: no hosted
    code, no [reset], no [interrupt] and no later [execute] removes it (an
    [execute] can only replace the text), and [execute] is the only one
    that changes the recorded sources at all. *)
Theorem recorded_sources_stay :
  (forall evs sys p,
     is_Some (sideOutputs (engine sys) !! p) ->
     is_Some (sideOutputs (engine (sys_run rootDir evs sys)) !! p)) /\
  (forall ev sys,
     (forall src, ev <> EvExecute src) ->
     sideOutputs (engine (fst (sys_step rootDir ev sys))) = sideOutputs (engine sys)).
Proof.
  assert (forall so, on_core (fun st => sideOutputs st = so)) as Hsame.
  { intros so st st' Hc Hst. rewrite <- Hst. unfold core in Hc. congruence. }
  assert (forall ev sys,
     (forall src, ev <> EvExecute src) ->
     sideOutputs (engine (fst (sys_step rootDir ev sys))) = sideOutputs (engine sys))
    as Hother.
  { intros ev sys Hne. destruct ev; unfold sys_step.
    - by destruct (Hne src).
    - rewrite interrupt_spec. reflexivity.
    - rewrite reset_spec. reflexivity.
    - pose proof (sideOutputs_outside _ _ (run_req_outside rootDir seg (engine sys))) as Hs.
      destruct (run (req rootDir) seg (engine sys)) as [r st]. exact Hs.
    - destruct (inflight sys) as [fl|]; [|reflexivity].
      destruct (fl_race fl) as [r|]; [|reflexivity].
      pose proof (execute_resume_maintains _ fl r (Hsame (sideOutputs (engine sys)))
                    (engine sys) eq_refl) as Hs.
      destruct (execute_resume fl r (engine sys)) as [res st]. exact Hs. }
  split; [|exact Hother].
  intros evs. induction evs as [|ev evs IH]; intros sys p Hp; [exact Hp|].
  rewrite sys_run_cons. apply IH.
  destruct ev; try (rewrite Hother; [exact Hp|discriminate]).
  unfold sys_step.
  assert (is_Some (sideOutputs (snd (execute_begin rootDir src (engine sys))) !! p)) as Hkept.
  { apply (execute_begin_maintains rootDir (fun st => is_Some (sideOutputs st !! p)) src);
      [| | |exact Hp].
    - intros st st' Hc Hst. unfold core in Hc. injection Hc as -> _ _ _ _. exact Hst.
    - intros outs st Hst. rewrite updateSideOutputs_spec. simpl. by apply recorded_keeps.
    - intros args st Hst.
      by rewrite (sideOutputs_outside _ _ (req_outside rootDir args st)). }
  destruct (execute_begin rootDir src (engine sys)) as [[[ok|fl]|e] st]; exact Hkept.
Qed.

(** X12: [updateSideOutputs] does not compare texts.  Recording for a path
    the very text that is recorded already leaves the sources as they are
    and still drops the compiled instance, so that the module runs again at
    the next import.  Recording the same list a second time changes nothing
    more. *)
Theorem rerecording_same_text st :
  (forall out,
     sideOutputs st !! path out = Some (data out) ->
     sideOutputs (snd (updateSideOutputs [out] st)) = sideOutputs st /\
     sideModules (snd (updateSideOutputs [out] st)) = delete (path out) (sideModules st)) /\
  (forall outs,
     snd (updateSideOutputs outs (snd (updateSideOutputs outs st)))
       = snd (updateSideOutputs outs st)).
Proof.
  split.
  - intros out Hsame. rewrite updateSideOutputs_spec. simpl.
    split; [by apply insert_id|reflexivity].
  - intros outs. rewrite !updateSideOutputs_spec. simpl.
    unfold set_sideModules, set_sideOutputs. simpl. f_equal.
    + apply map_eq. intros p. destruct (decide (p ∈ map path outs)) as [Hin|Hout].
      * by apply recorded_same_paths.
      * by rewrite recorded_other.
    + apply map_eq. intros p. destruct (decide (p ∈ map path outs)) as [Hin|Hout].
      * by rewrite !evicted_elem.
      * by rewrite evicted_other.
Qed.

(** ** The export namespace, seen from hosted code *)





End FurtherProperties.


(** * Properties of [inspect] and [complete] *)

Section InspectionProperties.

Context {Conv Info Completions : Type}.
Context `{!Converter Conv} `{!Host} `{!Inspector Conv Info Completions}.
Variable rootDir : string.

Implicit Types (st : @State Conv) (src : string).

(** X14: [inspect] and [complete] ask the converter of the snippet's mode,
    with the declarations that the last successful [execute] left, and
    yield what the converter yields.  After an [execute] that returned
    [true] for a converted snippet the declarations are its declaration
    output, after any other [execute] (and while one is suspended) they are
    the declarations from before; after the [await] they are the
    declaration output when the awaited completion was fulfilled and the
    declarations from before when it was rejected; after [reset] they are
    the empty text.  Neither call changes the declarations, the exports,
    the module cache, the console, the interrupt promise or the other
    converter. *)
Theorem inspection_uses_committed_declarations src position meta :
  getCodeMetadata src = Ok meta ->
  (forall st, asks_with (prevDecl st) src position st) /\
  (forall src0 st0 status st,
     execute_begin rootDir src0 st0 = (Ok status, st) ->
     (forall converted,
        converts src0 st0 converted -> status = Finished true ->
        asks_with (default "" (declOutput converted)) src position st) /\
     ((forall converted, ~ converts src0 st0 converted) \/ status <> Finished true ->
      asks_with (prevDecl st0) src position st)) /\
  (forall fl r st0,
     asks_with
       (if r is Ok _ then default "" (declOutput (fl_converted fl)) else prevDecl st0)
       src position (snd (execute_resume fl r st0))) /\
  (forall st, asks_with "" src position (snd (reset st))) /\
  (forall st st1,
     st1 = snd (inspect src position st) \/ st1 = snd (complete src position st) ->
     (sideOutputs st1, sideModules st1, exports st1, exports_proto st1, prevDecl st1,
      promises st1, interruptPromise st1, rejectInterruptPromise st1, console st1)
     = (sideOutputs st, sideModules st, exports st, exports_proto st, prevDecl st,
        promises st, interruptPromise st, rejectInterruptPromise st, console st) /\
     (if mode meta is ModeBrowser then node st1 = node st else browser st1 = browser st)).
Proof.
  intros Hmeta.
  assert (forall st, asks_with (prevDecl st) src position st) as Hask.
  { intros st. exists meta. split; [exact Hmeta|].
    unfold inspect, complete, asked, bind, lift. rewrite Hmeta.
    destruct (mode meta).
    - destruct (conv_inspect (node st) _ src position),
               (conv_complete (node st) _ src position). by split.
    - destruct (conv_inspect (browser st) _ src position),
               (conv_complete (browser st) _ src position). by split. }
  split; [exact Hask|]. split; [|split; [|split]].
  - intros src0 st0 status st Hrun.
    destruct (execute_begin_prevDecl rootDir src0 st0 status st Hrun) as [Hyes Hno].
    split.
    + intros converted Hc Hs. rewrite <- (Hyes converted Hc Hs). apply Hask.
    + intros Hcase. rewrite <- (Hno Hcase). apply Hask.
  - intros fl r st0. rewrite <- execute_resume_prevDecl. apply Hask.
  - intros st. pose proof (Hask (snd (reset st))) as Hr. rewrite reset_spec in *. exact Hr.
  - intros st st1 [-> | ->]; unfold inspect, complete, bind, lift; rewrite Hmeta;
      destruct (mode meta).
    + by destruct (conv_inspect (node st) _ src position).
    + by destruct (conv_inspect (browser st) _ src position).
    + by destruct (conv_complete (node st) _ src position).
    + by destruct (conv_complete (browser st) _ src position).
Qed.

End InspectionProperties.

(** * Properties of the file watcher of the tests *)

Lemma wanting_cons ev cb l :
  wanting ev (cb :: l) =
  if wanted (cb_fileName cb) (cb_eventKind cb) ev
  then cb_promise cb :: wanting ev l else wanting ev l.
Proof.
  unfold wanting. destruct (wanted _ _ ev) eqn:Hw.
  - by rewrite filter_cons_True.
  - rewrite filter_cons_False; [reflexivity|]. by rewrite Hw.
Qed.

Lemma wanting_subset ev l p : p ∈ wanting ev l -> p ∈ cb_promise <$> l.
Proof.
  unfold wanting. intros (cb & -> & Hcb)%list_elem_of_fmap.
  apply list_elem_of_filter in Hcb as [_ Hcb]. by apply list_elem_of_fmap_2.
Qed.

Lemma callbacks_fold ev l w :
  NoDup (cb_promise <$> l) ->
  (forall cb, cb ∈ l -> resolved w !! cb_promise cb = None) ->
  fileWathchers (foldl (fun w cb => call_callback cb ev w) w l)
    = filter (fun cb => cb_promise cb ∉ wanting ev l) (fileWathchers w) /\
  created (foldl (fun w cb => call_callback cb ev w) w l) = created w /\
  forall p,
    resolved (foldl (fun w cb => call_callback cb ev w) w l) !! p
      = if decide (p ∈ wanting ev l) then Some ev else resolved w !! p.
Proof.
  revert w. induction l as [|cb l IH]; intros w Hnodup Hnone.
  - split; [|split; [reflexivity|]]; cbn [foldl].
    + induction (fileWathchers w) as [|c ws IHws]; [reflexivity|].
      rewrite filter_cons_True; [by f_equal|]. apply not_elem_of_nil.
    + intros p. destruct (decide (p ∈ wanting ev [])) as [Hin|_]; [|reflexivity].
      by apply elem_of_nil in Hin.
  - rewrite fmap_cons in Hnodup. apply NoDup_cons in Hnodup as [Hfresh Hnodup].
    simpl foldl. rewrite wanting_cons. unfold call_callback at 2 4 6.
    destruct (wanted (cb_fileName cb) (cb_eventKind cb) ev) eqn:Hw.
    + unfold resolve. simpl. rewrite (Hnone cb) by apply list_elem_of_here.
      destruct (IH (mkWatch (filter (fun c => cb_promise c ≠ cb_promise cb) (fileWathchers w))
                      (<[cb_promise cb := ev]> (resolved w)) (created w)) Hnodup)
        as (Hws & Hcr & Hres).
      { intros c Hc. simpl. rewrite lookup_insert_ne; [apply Hnone; by right|].
        intros Heq. apply Hfresh. rewrite Heq. by apply list_elem_of_fmap_2. }
      split; [|split; [exact Hcr|]].
      * rewrite Hws. simpl. rewrite list_filter_filter. apply list_filter_iff.
        intros c. rewrite not_elem_of_cons. tauto.
      * intros p. rewrite Hres. simpl.
        destruct (decide (p ∈ wanting ev l)) as [Hin|Hout].
        -- rewrite decide_True; [reflexivity|]. by right.
        -- destruct (decide (p = cb_promise cb)) as [->|Hne].
           ++ rewrite decide_True by apply list_elem_of_here. apply lookup_insert_eq.
           ++ rewrite decide_False by (rewrite not_elem_of_cons; tauto).
              by apply lookup_insert_ne.
    + apply IH; [exact Hnodup|]. intros c Hc. apply Hnone. by right.
Qed.

Lemma watch_ok_nodup w : watch_ok w -> NoDup (cb_promise <$> fileWathchers w).
Proof. by intros (H & _). Qed.

Lemma fileWatcher_spec ev w :
  watch_ok w ->
  fileWathchers (fileWatcher ev w)
    = filter (fun cb => cb_promise cb ∉ wanting ev (fileWathchers w)) (fileWathchers w) /\
  created (fileWatcher ev w) = created w /\
  forall p,
    resolved (fileWatcher ev w) !! p
      = if decide (p ∈ wanting ev (fileWathchers w)) then Some ev else resolved w !! p.
Proof.
  intros (Hnodup & Hpending & _). apply callbacks_fold; [exact Hnodup|].
  intros cb Hcb. by apply Hpending.
Qed.

Lemma same_promise_same_callback (l : list Callback) cb cb' :
  NoDup (cb_promise <$> l) -> cb ∈ l -> cb' ∈ l ->
  cb_promise cb = cb_promise cb' -> cb = cb'.
Proof.
  induction l as [|c l IH]; intros Hnodup Hcb Hcb' Heq.
  - by apply elem_of_nil in Hcb.
  - rewrite fmap_cons in Hnodup. apply NoDup_cons in Hnodup as [Hfresh Hnodup].
    apply elem_of_cons in Hcb as [->|Hcb]; apply elem_of_cons in Hcb' as [->|Hcb'].
    + reflexivity.
    + exfalso. apply Hfresh. rewrite Heq. by apply list_elem_of_fmap_2.
    + exfalso. apply Hfresh. rewrite <- Heq. by apply list_elem_of_fmap_2.
    + by apply IH.
Qed.

Lemma wanting_iff ev w cb :
  watch_ok w -> cb ∈ fileWathchers w ->
  cb_promise cb ∈ wanting ev (fileWathchers w)
  <-> wanted (cb_fileName cb) (cb_eventKind cb) ev = true.
Proof.
  intros (Hnodup & _) Hcb. unfold wanting. split.
  - intros (cb' & Heq & Hcb')%list_elem_of_fmap.
    apply list_elem_of_filter in Hcb' as [Hw Hcb'].
    by rewrite (same_promise_same_callback _ cb cb' Hnodup Hcb Hcb' Heq).
  - intros Hw. apply list_elem_of_fmap_2. by apply list_elem_of_filter.
Qed.

Lemma fileWatcher_ok ev w : watch_ok w -> watch_ok (fileWatcher ev w).
Proof.
  intros Hok. destruct (fileWatcher_spec ev w Hok) as (Hws & Hcr & Hres).
  destruct Hok as (Hnodup & Hpending & Hfresh).
  unfold watch_ok. rewrite Hws, Hcr. split; [|split].
  - eapply sublist_NoDup; [exact Hnodup|]. apply fmap_sublist, sublist_filter.
  - intros cb [Hout Hcb]%list_elem_of_filter. rewrite Hres, decide_False by exact Hout.
    by apply Hpending.
  - intros p Hp. rewrite Hres, decide_False; [by apply Hfresh|].
    intros (cb & -> & Hcb)%wanting_subset%list_elem_of_fmap.
    destruct (Hpending cb Hcb). lia.
Qed.

Lemma waitFileEvent_ok f k w : watch_ok w -> watch_ok (snd (waitFileEvent f k w)).
Proof.
  intros (Hnodup & Hpending & Hfresh). unfold watch_ok. simpl. split; [|split].
  - rewrite fmap_app. apply NoDup_app. split; [exact Hnodup|]. split.
    + intros p (cb & -> & Hcb)%list_elem_of_fmap. simpl.
      rewrite list_elem_of_singleton. destruct (Hpending cb Hcb). lia.
    + simpl. apply NoDup_singleton.
  - intros cb [Hcb| ->%list_elem_of_singleton]%elem_of_app.
    + destruct (Hpending cb Hcb). split; [lia|assumption].
    + simpl. split; [lia|]. by apply Hfresh.
  - intros p Hp. apply Hfresh. lia.
Qed.

Lemma watch_step_ok w a : watch_ok w -> watch_ok (watch_step w a).
Proof. destruct a; [apply waitFileEvent_ok|apply fileWatcher_ok]. Qed.

Lemma watch_run_ok acts w : watch_ok w -> watch_ok (foldl watch_step w acts).
Proof.
  revert w. induction acts as [|a acts IH]; intros w Hok; [exact Hok|].
  simpl. apply IH. by apply watch_step_ok.
Qed.

Lemma no_watch_ok : watch_ok no_watch.
Proof.
  split; [constructor|]. split.
  - intros cb Hcb. by apply elem_of_nil in Hcb.
  - intros p _. apply lookup_empty.
Qed.

(** A resolved promise keeps its value and has no callback in the set. *)
Lemma resolved_stays acts w p value :
  watch_ok w -> resolved w !! p = Some value ->
  resolved (foldl watch_step w acts) !! p = Some value /\
  p ∉ cb_promise <$> fileWathchers (foldl watch_step w acts).
Proof.
  revert w. induction acts as [|a acts IH]; intros w Hok Hres.
  - split; [exact Hres|]. intros (cb & -> & Hcb)%list_elem_of_fmap.
    destruct Hok as (_ & Hpending & _). destruct (Hpending cb Hcb). congruence.
  - simpl. apply IH; [by apply watch_step_ok|]. destruct a as [f k|ev]; [exact Hres|].
    simpl. destruct (fileWatcher_spec ev w Hok) as (_ & _ & ->).
    rewrite decide_False; [exact Hres|].
    intros (cb & -> & Hcb)%wanting_subset%list_elem_of_fmap.
    destruct Hok as (_ & Hpending & _). destruct (Hpending cb Hcb). congruence.
Qed.

Lemma pending_until_wanted acts w cb :
  watch_ok w -> cb ∈ fileWathchers w ->
  resolved (foldl watch_step w acts) !! cb_promise cb
    = List.find (wanted (cb_fileName cb) (cb_eventKind cb)) (fired acts) /\
  (cb_promise cb ∈ cb_promise <$> fileWathchers (foldl watch_step w acts)
   <-> List.find (wanted (cb_fileName cb) (cb_eventKind cb)) (fired acts) = None).
Proof.
  revert w. induction acts as [|a acts IH]; intros w Hok Hcb.
  - simpl. destruct Hok as (_ & Hpending & _). destruct (Hpending cb Hcb) as [_ Hnone].
    split; [exact Hnone|]. split; [reflexivity|]. intros _. by apply list_elem_of_fmap_2.
  - simpl foldl. destruct a as [f k|ev].
    + change (fired (Wait f k :: acts)) with (fired acts).
      apply IH; [by apply waitFileEvent_ok|]. simpl. apply elem_of_app. by left.
    + change (fired (Fire ev :: acts)) with (ev :: fired acts). simpl List.find.
      pose proof (wanting_iff ev w cb Hok Hcb) as Hiff.
      destruct (fileWatcher_spec ev w Hok) as (Hws & _ & Hres).
      destruct (wanted (cb_fileName cb) (cb_eventKind cb) ev) eqn:Hw.
      * assert (resolved (fileWatcher ev w) !! cb_promise cb = Some ev) as Hnow.
        { rewrite Hres, decide_True; [reflexivity|]. by apply Hiff. }
        destruct (resolved_stays acts (fileWatcher ev w) _ ev (fileWatcher_ok ev w Hok) Hnow)
          as [Hval Hgone].
        split; [exact Hval|]. split; [contradiction|discriminate].
      * apply IH; [by apply fileWatcher_ok|]. simpl. rewrite Hws.
        apply list_elem_of_filter. split; [|exact Hcb].
        intros Hin%Hiff. discriminate.
Qed.

(** X15: the promise that [waitFileEvent] returns is resolved by the first
    file event after the call that has the awaited file name and the
    awaited kind (each only when one was given), with that event as value,
    whatever other waits and events come before, between and after; until
    such an event arrives its callback stays in [fileWathchers], and then
    it is removed for good. *)
Theorem waitFileEvent_first_wanted_event earlier fileName eventKind later :
  let waiting := waitFileEvent fileName eventKind (foldl watch_step no_watch earlier) in
  resolved (foldl watch_step (snd waiting) later) !! fst waiting
    = List.find (wanted fileName eventKind) (fired later) /\
  (fst waiting ∈ cb_promise <$> fileWathchers (foldl watch_step (snd waiting) later)
   <-> List.find (wanted fileName eventKind) (fired later) = None).
Proof.
  intros waiting.
  pose proof (watch_run_ok earlier no_watch no_watch_ok) as Hok.
  apply (pending_until_wanted later (snd waiting)
           (mkCallback (created (foldl watch_step no_watch earlier)) fileName eventKind)).
  - by apply waitFileEvent_ok.
  - simpl. apply elem_of_app. right. apply list_elem_of_singleton. reflexivity.
Qed.

(** X16: a file event is given to every callback that is in the set: all
    the promises that want it are resolved by it at once, and the set keeps
    exactly the callbacks that do not want it, in the order in which they
    were added. *)
Theorem fileWatcher_resolves_all_wanting acts ev :
  let w := foldl watch_step no_watch acts in
  fileWathchers (fileWatcher ev w)
    = filter (fun cb => wanted (cb_fileName cb) (cb_eventKind cb) ev = false)
        (fileWathchers w) /\
  forall cb,
    cb ∈ fileWathchers w ->
    resolved (fileWatcher ev w) !! cb_promise cb
      = if wanted (cb_fileName cb) (cb_eventKind cb) ev then Some ev else None.
Proof.
  intros w. pose proof (watch_run_ok acts no_watch no_watch_ok) as Hok. fold w in Hok.
  destruct (fileWatcher_spec ev w Hok) as (Hws & _ & Hres). split.
  - rewrite Hws. clear Hws Hres.
    assert (forall l : list Callback, (forall cb, cb ∈ l -> cb ∈ fileWathchers w) ->
              filter (fun cb => cb_promise cb ∉ wanting ev (fileWathchers w)) l
              = filter (fun cb => wanted (cb_fileName cb) (cb_eventKind cb) ev = false) l)
      as Hfilter.
    { induction l as [|c l IH]; intros Hsub; [reflexivity|].
      pose proof (wanting_iff ev w c Hok (Hsub c (list_elem_of_here c l))) as Hiff.
      assert (forall cb, cb ∈ l -> cb ∈ fileWathchers w) as Hsub'
        by (intros cb Hcb; apply Hsub; by right).
      destruct (wanted (cb_fileName c) (cb_eventKind c) ev) eqn:Hw.
      - rewrite !filter_cons_False; [by apply IH| by rewrite Hw | ].
        intros Hout. apply Hout. by apply Hiff.
      - rewrite !filter_cons_True; [f_equal; by apply IH| exact Hw | ].
        intros Hin%Hiff. discriminate. }
    by apply Hfilter.
  - intros cb Hcb. rewrite Hres. pose proof (wanting_iff ev w cb Hok Hcb) as Hiff.
    destruct Hok as (_ & Hpending & _). destruct (Hpending cb Hcb) as [_ Hnone].
    destruct (wanted (cb_fileName cb) (cb_eventKind cb) ev).
    + rewrite decide_True; [reflexivity|]. by apply Hiff.
    + rewrite decide_False; [exact Hnone|]. intros Hin%Hiff. discriminate.
Qed.

(** * The executor on examples *)

#[local] Existing Instance table_converter.

Lemma node_snippets_convert (h : string -> Prog (Result RetVal))
    (compile : string -> string -> Prog (Result Value))
    (host : HostRequire -> list string -> Result Value) (src : string) (st : @State Table) :
  @converts _ table_converter (example_host for_node h compile host) src st
    (node st (prevDecl st) src).
Proof. split; [exists (for_node src); by repeat split|reflexivity]. Qed.

(** ** Diagnostics *)


(** ** Runtime failures *)

Lemma runtime_failure_keeps_declarations_example :
  let st : @State Table := fresh throwing_snippet in
  @runs_body _ table_converter throwing_host "src" st (throwing_snippet "" "src") /\
  exists st',
    @execute_begin _ table_converter throwing_host root "src" st
      = (Ok (Finished false), st') /\
    console st' = console st ++ [CError [VError "my error"]] /\
    prevDecl st' = prevDecl st.
Proof.
  intros st.
  assert (@runs_body _ table_converter throwing_host "src" st (throwing_snippet "" "src"))
    as Hruns by (split; [apply node_snippets_convert|by split]).
  split; [exact Hruns|].
  destruct (@runtime_failure_keeps_declarations _ table_converter throwing_host root "src" st
              (throwing_snippet "" "src") Hruns) as [Hthrow _].
  eapply Hthrow; [reflexivity|]. simpl. by split.
Defined.

(** The body of [let x = 1; throw new Error('my error');] throws.  [execute]
    reports the error and returns [false], and the declaration output of
    the converter is not taken over. *)
Lemma runtime_failure_drops_declOutput :
  let st : @State Table := fresh throwing_snippet in
  let converted := throwing_snippet "" "src" in
  @runs_body _ table_converter throwing_host "src" st converted /\
  fst (@run _ throwing_host _ (@req _ throwing_host root)
         (@runInThisContext throwing_host (wrapped converted))
         (@after_convert _ table_converter converted "src" st))
    = Thrown (VError "my error") /\
  declOutput converted = Some "declare let x: number;" /\
  exists st',
    @execute_begin _ table_converter throwing_host root "src" st
      = (Ok (Finished false), st') /\
    console st' = [CError [VError "my error"]] /\
    prevDecl st' = "" /\
    prevDecl st' <> default "" (declOutput converted).
Proof.
  intros st converted.
  split; [split; [apply node_snippets_convert|by split]|]. split; [reflexivity|].
  split; [reflexivity|].
  exists (snd (@execute_begin _ table_converter throwing_host root "src" st)).
  split; [vm_compute; reflexivity|].
  split; [reflexivity|]. split; [reflexivity|]. discriminate.
Qed.

(** ** The trailing expression *)

Lemma trailing_expression_displayed_example :
  let st : @State Table :=
    set_exports (insert "x" (VNum 5)) (fresh product_snippet) in
  exists st',
    @execute_begin _ table_converter product_host root "x * 2" st
      = (Ok (Finished true), st') /\
    exports st' = delete "tsLastExpr" (<["tsLastExpr" := VNum 10]> (exports st)) /\
    console st' = [CLog [VNum 10]].
Proof.
  intros st.
  destruct (@trailing_expression_displayed _ table_converter product_host root
              (product_snippet "" "x * 2") "tsLastExpr" eq_refl ltac:(discriminate))
    as [Hsync _].
  destruct (Hsync "x * 2" st (Plain VUndefined)
              (set_exports (insert "tsLastExpr" (VNum 10)) st))
    as (st' & Hrun & Hshow & _).
  - split; [apply node_snippets_convert|by split].
  - reflexivity.
  - reflexivity.
  - vm_compute. by split.
  - exists st'. split; [exact Hrun|]. exact (Hshow eq_refl).
Defined.

(** The snippet is the expression [null].  [execute] succeeds and writes
    nothing, and the binding of the trailing expression is still in the
    export namespace. *)
Lemma null_trailing_expression_stays :
  let st : @State Table := fresh null_snippet in
  lastExpressionVar (null_snippet "" "null") = Some "tsLastExpr" /\
  @runs_body _ table_converter null_host "null" st (null_snippet "" "null") /\
  exists st',
    @execute_begin _ table_converter null_host root "null" st = (Ok (Finished true), st') /\
    console st' = [] /\
    exports st' !! "tsLastExpr" = Some VNull /\
    exports st' !! "tsLastExpr" <> None.
Proof.
  intros st. split; [reflexivity|].
  split; [split; [apply node_snippets_convert|by split]|].
  exists (snd (@execute_begin _ table_converter null_host root "null" st)).
  split; [vm_compute; reflexivity|].
  split; [reflexivity|]. split; [reflexivity|]. discriminate.
Qed.

(** ** Faults and [execute] *)




(** ** Interruption *)

Lemma fresh_armed (c : Table) : signal_armed (fresh c).
Proof. unfold fresh. apply createExecutor_armed. Qed.

Lemma interrupt_rearms_example :
  let st : @State Table := fresh awaiting_snippet in
  signal_armed st /\
  exists st',
    interrupt st = (Ok tt, st') /\
    signal_armed st' /\
    promises st' = [mkPromiseCell (Some (Thrown interrupted)) true; mkPromiseCell None true] /\
    interruptPromise st' = 1 /\
    @sys_step _ table_converter awaiting_host root EvInterrupt (mkSystem st None)
      = (mkSystem st' None, None).
Proof.
  intros st.
  assert (signal_armed st) as Harm by apply fresh_armed.
  split; [exact Harm|].
  destruct (@interrupt_rearms _ table_converter awaiting_host root) as [_ Hrearm].
  destruct (Hrearm st Harm) as (st' & Hint & Harm' & _ & _ & _ & _ & Hsys & _).
  exists st'. split; [exact Hint|]. split; [exact Harm'|].
  assert (snd (interrupt st) = st') as <- by (by rewrite Hint).
  split; [reflexivity|]. split; [reflexivity|]. exact Hsys.
Defined.


(** ** A side module whose exports are falsy *)

(** C9 fails on the code here.  The source of [/root/a.js] is recorded and
    compiles to the exports [0] ([export = 0;] in [a.ts]).
    [requireFromSideOutputs] returns these exports, [wrapRequire] takes the
    falsy value for "no side module" and calls the underlying [require],
    which knows no such module. *)
Theorem falsy_exports_reach_host_require :
  let st : @State Table :=
    snd (updateSideOutputs [mkSideOutput "/root/a.js" "module.exports = 0;"]
           (fresh null_snippet)) in
  sideOutputs st !! @side_filename zero_host root "./a" = Some "module.exports = 0;" /\
  fst (@requireFromSideOutputs _ zero_host (@wrapRequire _ zero_host 1) root "./a" st)
    = Ok (VNum 0) /\
  fst (@wrapRequire _ zero_host 2 (@createRequire zero_host root) root ["./a"] st)
    = @host_apply zero_host (@createRequire zero_host root) ["./a"] /\
  fst (@wrapRequire _ zero_host 2 (@createRequire zero_host root) root ["./a"] st)
    = Thrown (VError "Cannot find module './a'").
Proof. intros st. repeat split. Qed.

(** C3 fails on the code here, by the same test of [wrapRequire].  The
    first import of [./a] compiles the recorded source and caches the
    instance, whose exports are [0].  No import returns the exports of
    that instance: the first one and every later one end as the underlying
    [require] ends, which knows no such module. *)
Theorem cached_falsy_exports_are_not_returned :
  let st0 : @State Table :=
    snd (updateSideOutputs [mkSideOutput "/root/a.js" "module.exports = 0;"]
           (fresh null_snippet)) in
  let import := @req _ zero_host root ["./a"] in
  let st1 := snd (import st0) in
  sideModules st0 !! "/root/a.js" = None /\
  mod_exports <$> sideModules st1 !! "/root/a.js" = Some (VNum 0) /\
  mod_source <$> sideModules st1 !! "/root/a.js" = sideOutputs st1 !! "/root/a.js" /\
  fst (import st0) = Thrown (VError "Cannot find module './a'") /\
  (forall n,
     Nat.iter n (fun s => snd (import s)) st1 = st1 /\
     fst (import (Nat.iter n (fun s => snd (import s)) st1))
       = Thrown (VError "Cannot find module './a'")) /\
  fst (import st1) <> Ok (VNum 0).
Proof.
  intros st0 import st1.
  assert (import st1 = (Thrown (VError "Cannot find module './a'"), st1)) as Hagain
    by (vm_compute; reflexivity).
  split; [reflexivity|]. split; [reflexivity|]. split; [reflexivity|].
  split; [reflexivity|]. split; [|by rewrite Hagain].
  intros n.
  assert (Nat.iter n (fun s => snd (import s)) st1 = st1) as Hn.
  { induction n as [|n IH]; [reflexivity|]. rewrite Nat.iter_succ, IH, Hagain. reflexivity. }
  split; [exact Hn|]. rewrite Hn, Hagain. reflexivity.
Qed.

(** ** Names that the export namespace does not take *)

(** C7 fails on the code here.  The target of the proxy is a plain object,
    and the trap assigns to it: defining [__proto__] runs the setter that
    the target inherits from [Object.prototype].  The trap reports success
    and the definition returns, but nothing is stored: with the value [5]
    nothing changes at all, and with an object the prototype of the
    namespace is replaced.  The name reads as the prototype.  A plain
    assignment ends in the same way.  (A descriptor that is not
    configurable, for any name, stores the value, and then the definition
    throws: the proxy refuses what the trap reported.) *)
Theorem define_proto_stores_nothing :
  let st : @State Table := fresh null_snippet in
  let five := mkDescriptor None (VNum 5) None in
  @defineProperty _ null_host "__proto__" five st = (Ok true, st) /\
  @exports_define _ null_host "__proto__" five st = (Ok tt, st) /\
  @exports_set _ null_host "__proto__" (VNum 5) st = (Ok true, st) /\
  exports st !! "__proto__" = None /\
  @exports_read _ null_host "__proto__" st = object_prototype /\
  @exports_read _ null_host "__proto__" st <> VNum 5 /\
  @defineProperty _ null_host "__proto__" (mkDescriptor None frozen_point None) st
    = (Ok true, set_exports_proto frozen_point st) /\
  @exports_define _ null_host "x" (mkDescriptor None (VNum 1) (Some false)) st
    = (Thrown (@invariantError null_host "x"), set_exports (insert "x" (VNum 1)) st).
Proof. intros st five. repeat split. discriminate. Qed.

(** * More examples *)

(** ** The module cache *)

(** The test [modules updated]: [mylib] is imported twice, rewritten, and
    imported again. *)
Lemma module_cache_follows_source_example :
  let st0 : @State Table := fresh null_snippet in
  let first := [mkSideOutput "/root/mylib.js" "exports.a = 'AAA';"] in
  let second :=
    [mkSideOutput "/root/mylib.js" "exports.a = 'BBB';"; mkSideOutput "/root/b.js" "";
     mkSideOutput "/root/mylib.js" "exports.a = 'XXX';"] in
  let import := @req _ object_host root ["./mylib"] in
  let st1 := snd (updateSideOutputs first st0) in
  let st2 := snd (import st1) in
  import st1 =
    (Ok (VObject 1),
     set_sideModules
       (insert "/root/mylib.js"
          (mkNodeModule "/root/mylib.js" ["/root/node_modules"] (VObject 1)
             "exports.a = 'AAA';")) st1) /\
  (forall n, Nat.iter n (fun s => snd (import s)) st2 = st2) /\
  import st2 = (Ok (VObject 1), st2) /\
  sideModules (snd (updateSideOutputs second st2)) !! "/root/mylib.js" = None /\
  sideOutputs (snd (updateSideOutputs second st2)) !! "/root/mylib.js"
    = Some "exports.a = 'XXX';" /\
  fst (import (snd (updateSideOutputs second st2))) = Ok (VObject 2).
Proof.
  intros st0 first second import st1 st2.
  destruct (@module_cache_follows_source _ table_converter object_host root)
    as (_ & Hnext & Hrecorded & Hreuse & _).
  pose proof (Hnext 7 (@createRequire object_host root) root "./mylib" st1
                "exports.a = 'AAA';" ltac:(discriminate) eq_refl eq_refl) as Hfirst.
  destruct (Hreuse 7 (@createRequire object_host root) root "./mylib" st2
              (mkNodeModule "/root/mylib.js" ["/root/node_modules"] (VObject 1)
                 "exports.a = 'AAA';") ltac:(discriminate) eq_refl) as [Hagain Hn].
  destruct (Hrecorded second st2 7 (@createRequire object_host root) root "./mylib"
              "exports.a = 'XXX';" ltac:(discriminate) eq_refl) as (Hgone & Htext & Hthen).
  split; [exact Hfirst|]. split; [exact Hn|]. split; [exact Hagain|].
  split; [exact Hgone|]. split; [exact Htext|]. exact Hthen.
Defined.

(** ** Snippets that are not converted *)

Lemma unconverted_snippets_example :
  let st : @State Table := fresh null_snippet in
  @execute_begin _ strict_converter module_host root "export const a = y;" st
    = (Ok (Finished true),
       mkState ∅ ∅ ∅ object_prototype "" [mkPromiseCell None true] 0 0
         [CError [VStr "%s%d:%d - %s"; VStr "mylib.ts "; VNum 3; VNum 1;
                  VStr "Cannot find name 'y'."]]
         null_snippet null_snippet) /\
  @execute_begin _ table_converter browser_host root "document.title" st
    = (Ok (Finished true), st).
Proof.
  intros st.
  destruct (@unconverted_snippets _ strict_converter module_host root
              "export const a = y;" st (as_module "export const a = y;") eq_refl)
    as [Hmodule _].
  destruct (@unconverted_snippets _ table_converter browser_host root
              "document.title" st (for_browser "document.title") eq_refl)
    as [_ Hbrowser].
  split.
  - apply (Hmodule "mylib"
             [mkDiagnostic (Some "mylib.ts") 2 0 "Cannot find name 'y'."] eq_refl
             ltac:(discriminate) eq_refl).
    simpl. by split.
  - exact (Hbrowser eq_refl eq_refl).
Defined.

(** ** The declarations *)

Lemma declarations_only_snippet_example :
  let st : @State Table := fresh interface_snippet in
  let src := "interface Point { x: number }" in
  @converts _ table_converter null_host src st (interface_snippet "" src) /\
  exists st',
    @execute_begin _ table_converter null_host root src st = (Ok (Finished true), st') /\
    prevDecl st' = "interface Point { x: number }" /\
    exports st' = ∅ /\
    console st' = [] /\
    sideOutputs st' !! "/root/a.js" = Some "exports.a = 1;".
Proof.
  intros st src.
  assert (@converts _ table_converter null_host src st (interface_snippet "" src)) as Hc
    by apply node_snippets_convert.
  split; [exact Hc|].
  destruct (@declarations_only_snippet _ table_converter null_host root src st
              (interface_snippet "" src) Hc eq_refl eq_refl)
    as (st' & Hrun & Hprev & Hexp & _ & Hcon & Hso & _).
  exists st'. split; [exact Hrun|]. split; [exact Hprev|]. split; [exact Hexp|].
  split; [exact Hcon|]. rewrite Hso. reflexivity.
Defined.


(** ** The [await] *)

(** The body returns a promise that is rejected already. *)
Lemma await_defers_reporting_example :
  let st : @State Table := fresh awaiting_snippet in
  @runs_body _ table_converter rejected_host "await" st (awaiting_snippet "" "await") /\
  @execute_begin _ table_converter rejected_host root "await" st
    = (Ok (Awaiting (mkInFlight (awaiting_snippet "" "await") 0
                       (Some (Thrown (VStr "Good Bye Promise"))))), st) /\
  console st = [].
Proof.
  intros st.
  assert (@runs_body _ table_converter rejected_host "await" st (awaiting_snippet "" "await"))
    as Hruns by (split; [apply node_snippets_convert|by split]).
  split; [exact Hruns|].
  destruct (@await_defers_reporting _ table_converter rejected_host root "await" st
              (awaiting_snippet "" "await")
              (PromiseOf (Some (Thrown (VStr "Good Bye Promise")))) st Hruns
              eq_refl eq_refl eq_refl) as (Hrun & Hcon & _).
  split; [exact Hrun|exact Hcon].
Defined.

(** The first half of the test [interrupt], with a late [interrupt] *)
Lemma fulfilled_await_ignores_interrupt_example :
  let st : @State Table := fresh awaiting_snippet in
  let fl := mkInFlight (awaiting_snippet "" "await") 0 None in
  let before :=
    [EvBody (SetExport "tsLastExpr" (VStr "done") (fun _ => Ret (Some (Ok VUndefined))))] in
  let after := [EvInterrupt; EvInterrupt] in
  @execute_begin _ table_converter awaiting_host root "await" st = (Ok (Awaiting fl), st) /\
  exists st',
    @sys_step _ table_converter awaiting_host root EvResume
      (@sys_run _ table_converter awaiting_host root (before ++ after) (mkSystem st (Some fl)))
      = (mkSystem st' None, Some (Ok true)) /\
    console st' = [CLog [VStr "done"]].
Proof.
  intros st fl before after.
  assert (@execute_begin _ table_converter awaiting_host root "await" st = (Ok (Awaiting fl), st))
    as Hbegin by (vm_compute; reflexivity).
  split; [exact Hbegin|].
  destruct (@fulfilled_await_ignores_interrupt _ table_converter awaiting_host root "await" st
              fl st before after VUndefined Hbegin)
    as (_ & Hres & _ & Hcon).
  - repeat constructor.
  - vm_compute. reflexivity.
  - repeat constructor.
  - vm_compute. by split.
  - eexists. split; [exact Hres|]. rewrite Hcon. vm_compute. reflexivity.
Defined.

(** As in the test [promise rejected immediately]: the promise is displayed,
    not awaited *)
Lemma unawaited_result_is_ignored_example :
  let st : @State Table := fresh detached_snippet in
  @runs_body _ table_converter detached_host "new Promise" st
    (detached_snippet "" "new Promise") /\
  exists st',
    @execute_begin _ table_converter detached_host root "new Promise" st
      = (Ok (Finished true), st') /\
    prevDecl st' = "" /\
    console st' = [CLog [VObject 7]].
Proof.
  intros st.
  assert (@runs_body _ table_converter detached_host "new Promise" st
            (detached_snippet "" "new Promise")) as Hruns
    by (split; [apply node_snippets_convert|by split]).
  split; [exact Hruns|].
  destruct (@unawaited_result_is_ignored _ table_converter detached_host root "new Promise" st
              (detached_snippet "" "new Promise")
              (PromiseOf (Some (Thrown (VError "rejected immediately"))))
              (set_exports (insert "tsLastExpr" (VObject 7)) st) Hruns eq_refl)
    as (Hrun & Hprev & Hcon).
  - vm_compute. reflexivity.
  - vm_compute. by split.
  - eexists. split; [exact Hrun|]. split; [exact Hprev|]. rewrite Hcon.
    vm_compute. reflexivity.
Defined.

(** ** Resolution of a specifier *)

Lemma unknown_specifier_goes_to_host_example :
  let st : @State Table := fresh null_snippet in
  @wrapRequire _ builtin_host 1 (@createRequire builtin_host root) root ["crypto"] st
    = (Ok (VObject 9), st) /\
  @wrapRequire _ builtin_host 1 (@createRequire builtin_host root) root ["tslab"; "x"] st
    = (Thrown (VError "Cannot find module 'tslab'"), st).
Proof.
  intros st.
  destruct (@unknown_specifier_goes_to_host _ builtin_host 0
              (@createRequire builtin_host root) root st) as [Hone Hother].
  split.
  - apply (Hone "crypto"); [discriminate|reflexivity|reflexivity].
  - apply (Hother ["tslab"; "x"]). discriminate.
Defined.

Lemma side_modules_shadow_host_example :
  let st0 : @State Table := fresh null_snippet in
  let st1 := snd (updateSideOutputs [mkSideOutput "/root/crypto.js" "exports.a = 'AAA';"] st0) in
  let st := snd (@wrapRequire _ builtin_host 1 (@createRequire builtin_host root) root
                   ["./crypto"] st1) in
  @wrapRequire _ builtin_host 1 (@createRequire builtin_host root) root ["crypto"] st
    = (Ok (VObject 1), st).
Proof.
  intros st0 st1 st.
  destruct (@side_modules_shadow_host _ builtin_host 0
              (@createRequire builtin_host root) root st) as [_ Hcached].
  apply (Hcached "crypto"
           (mkNodeModule "/root/crypto.js" ["/root/node_modules"] (VObject 1)
              "exports.a = 'AAA';")); [discriminate|reflexivity|reflexivity].
Defined.

Lemma self_import_exhausts_stack_example :
  let st0 : @State Table := fresh null_snippet in
  let st := snd (updateSideOutputs [mkSideOutput "/root/a.js" "require('./a');"] st0) in
  @req _ selfish_host root ["./a"] st
    = (Thrown (VError "Maximum call stack size exceeded"), st).
Proof.
  intros st0 st.
  apply (@self_import_exhausts_stack _ selfish_host "/root/a.js" "require('./a');" "./a"
           (fun imported =>
              if imported is Thrown e then Ret (Thrown e) else Ret (Ok (VObject 1))));
    try reflexivity; discriminate.
Defined.

Lemma side_module_imports_side_module_example :
  let st0 : @State Table := fresh null_snippet in
  let st :=
    snd (updateSideOutputs
           [mkSideOutput "/root/a.js" "import './b'"; mkSideOutput "/root/b.js" "export {}"]
           st0) in
  let st' := snd (@req _ chained_host root ["./a"] st) in
  @req _ chained_host root ["./a"] st = (Ok (VObject 1), st') /\
  mod_exports <$> sideModules st' !! "/root/a.js" = Some (VObject 1) /\
  mod_exports <$> sideModules st' !! "/root/b.js" = Some (VObject 2).
Proof.
  intros st0 st st'.
  assert (@req _ chained_host root ["./a"] st =
          (Ok (VObject 1),
           set_sideModules
             (fun cache =>
                <["/root/a.js" := mkNodeModule "/root/a.js" ["/root/node_modules"]
                                    (VObject 1) "import './b'"]>
                  (<["/root/b.js" := mkNodeModule "/root/b.js" ["/root/node_modules"]
                                       (VObject 2) "export {}"]> cache)) st)) as Hrun.
  { apply (@side_module_imports_side_module _ chained_host 6
             (@createRequire chained_host root) root "./a" st "/root/a.js" "/root/b.js"
             "./b"
             (fun imported =>
                if imported is Thrown e then Ret (Thrown e) else Ret (Ok (VObject 1)))
             "import './b'" "export {}" (VObject 1) (VObject 2));
      try reflexivity; discriminate. }
  unfold st'. rewrite Hrun. split; [reflexivity|]. split; reflexivity.
Defined.

(** The test [cache module]: [rand.ts] imports ["crypto"] *)
Lemma side_module_reaches_its_own_require_example :
  let st0 : @State Table := fresh null_snippet in
  let st := snd (updateSideOutputs [mkSideOutput "/root/rand.js" "require('crypto')"] st0) in
  @req _ rand_host root ["./rand"] st =
  (Ok (VObject 3),
   set_sideModules
     (insert "/root/rand.js"
        (mkNodeModule "/root/rand.js" ["/root/node_modules"] (VObject 3) "require('crypto')"))
     st).
Proof.
  intros st0 st.
  apply (@side_module_reaches_its_own_require _ rand_host 6
           (@createRequire rand_host root) root "./rand" st "/root/rand.js" "crypto"
           (fun imported =>
              if imported is Thrown e then Ret (Thrown e) else Ret (Ok (VObject 3)))
           "require('crypto')" (VObject 3));
    try reflexivity; discriminate.
Defined.

(** ** The recorded sources *)

Lemma recorded_sources_stay_example :
  let st0 : @State Table := fresh throwing_snippet in
  let st := snd (updateSideOutputs [mkSideOutput "/root/a.js" "exports.a = 1;"] st0) in
  let evs := [EvReset; EvExecute "src"; EvInterrupt; EvBody (DeleteExport "x" (Ret None))] in
  is_Some (sideOutputs (engine (@sys_run _ table_converter throwing_host root evs (mkSystem st None)))
             !! "/root/a.js").
Proof.
  intros st0 st evs.
  destruct (@recorded_sources_stay _ table_converter throwing_host root) as [Hstay _].
  apply Hstay. simpl. by eexists.
Defined.

Lemma rerecording_same_text_example :
  let st0 : @State Table := fresh null_snippet in
  let out := mkSideOutput "/root/mylib.js" "exports.a = 'AAA';" in
  let st1 := snd (updateSideOutputs [out] st0) in
  let st := snd (@req _ object_host root ["./mylib"] st1) in
  is_Some (sideModules st !! "/root/mylib.js") /\
  sideOutputs (snd (updateSideOutputs [out] st)) = sideOutputs st /\
  sideModules (snd (updateSideOutputs [out] st)) = delete "/root/mylib.js" (sideModules st).
Proof.
  intros st0 out st1 st. split; [by eexists|].
  destruct (@rerecording_same_text _ st) as [Hsame _].
  apply (Hsame out). reflexivity.
Defined.

(** ** The export namespace, seen from hosted code *)


(** ** [inspect] and [complete] *)

Lemma inspection_uses_committed_declarations_example :
  let st0 : @State Table :=
    set_prevDecl "declare let y: number;" (fresh throwing_snippet) in
  let st := snd (@execute_begin _ table_converter throwing_host root "src" st0) in
  @execute_begin _ table_converter throwing_host root "src" st0 = (Ok (Finished false), st) /\
  fst (@inspect _ _ _ throwing_host echo_inspector "x" 0 st) = Ok "declare let y: number;" /\
  fst (@complete _ _ _ throwing_host echo_inspector "x" 0 st) = Ok "declare let y: number;" /\
  fst (@complete _ _ _ throwing_host echo_inspector "x" 0 (snd (reset st))) = Ok "".
Proof.
  intros st0 st.
  assert (@execute_begin _ table_converter throwing_host root "src" st0 = (Ok (Finished false), st))
    as Hrun by (vm_compute; reflexivity).
  split; [exact Hrun|].
  destruct (@inspection_uses_committed_declarations _ _ _ table_converter throwing_host
              echo_inspector root "x" 0%Z (for_node "x") eq_refl)
    as (_ & Hexecute & _ & Hreset & _).
  destruct (Hexecute "src" st0 _ st Hrun) as [_ Hkept].
  destruct Hkept as (meta & _ & Hinspect & Hcomplete); [right; discriminate|].
  destruct (Hreset st) as (meta' & _ & _ & Hcomplete').
  split; [exact Hinspect|]. split; [exact Hcomplete|exact Hcomplete'].
Defined.

(** ** The file watcher of the tests *)

(** The test [changed] waits for [Changed] on one file while another test
    waits for anything. *)
Lemma fileWatcher_resolves_all_wanting_example :
  let acts := [Wait (Some "a.ts") (Some Changed); Wait None None; Wait (Some "b.ts") None] in
  let ev := mkFileEvent "a.ts" Changed in
  let w := foldl watch_step no_watch acts in
  fileWathchers (fileWatcher ev w) = [mkCallback 2 (Some "b.ts") None] /\
  resolved (fileWatcher ev w) !! 0 = Some ev /\
  resolved (fileWatcher ev w) !! 1 = Some ev /\
  resolved (fileWatcher ev w) !! 2 = None.
Proof.
  intros acts ev w.
  destruct (fileWatcher_resolves_all_wanting acts ev) as [Hset Hres].
  split; [exact Hset|]. split; [|split].
  - apply (Hres (mkCallback 0 (Some "a.ts") (Some Changed))). repeat constructor.
  - apply (Hres (mkCallback 1 None None)). repeat constructor.
  - apply (Hres (mkCallback 2 (Some "b.ts") None)). repeat constructor.
Defined.
